(** * twitterapi-research-skill: the paginated fetch pipeline and the record
    transforms of [lib/api.ts], with the cache store contract.

  The TypeScript code is embedded shallowly:
  - JavaScript numbers that the code uses as counts, page indices and
    millisecond timestamps are [Z] (the non-integer values and NaN of
    IEEE doubles are outside the model, except for the NaN of an invalid
    [Date], which is [None]);
  - loosely typed API payloads ([any]) are [JSval];
  - [async] code that calls the transport, sleeps and reads the clock is a
    state-and-exception monad over an abstract world, with a log of the
    transport calls and sleeps it performed;
  - arrays that are copied and sorted in place live in a small heap. *)

From Stdlib Require Import ZArith Ascii String DecimalString.
From stdpp Require Import base option list sorting gmap sets strings.

Local Set Warnings "-register-all".
Local Open Scope string_scope.
Local Open Scope list_scope.
Local Open Scope Z_scope.

(** ** JavaScript values and exceptions *)

Module JS.

(** A parsed JSON payload; [JUndefined] is what reading a missing
    property gives. *)
Inductive JSval : Type :=
| JUndefined
| JNull
| JBool (b : bool)
| JNum (n : Z)
| JStr (s : string)
| JArr (items : list JSval)
| JObj (fields : list (string * JSval)).

(** ToBoolean: what [if (v)], [!v] and [v || d] test. *)
Definition truthy (v : JSval) : bool :=
  match v with
  | JUndefined | JNull => false
  | JBool b => b
  | JNum n => negb (n =? 0)
  | JStr s => negb (String.eqb s "")
  | JArr _ | JObj _ => true
  end.

Inductive JSError : Type :=
| TypeError
| Error (message : string).

(** The outcome of an expression that may throw. *)
Inductive Exc (A : Type) : Type :=
| Ok (a : A)
| Throw (e : JSError).
Global Arguments Ok {A} a.
Global Arguments Throw {A} e.

Fixpoint assoc (k : string) (fields : list (string * JSval)) : JSval :=
  match fields with
  | [] => JUndefined
  | (k', v) :: rest => if String.eqb k k' then v else assoc k rest
  end.

(** [v.k]: reading a property of [null] or [undefined] throws; a
    property an object does not have, or one of these names on a
    primitive or an array, is [undefined]. *)
Definition get (v : JSval) (k : string) : Exc JSval :=
  match v with
  | JUndefined | JNull => Throw TypeError
  | JObj fields => Ok (assoc k fields)
  | _ => Ok JUndefined
  end.

(** [Array.isArray]. *)
Definition isArray (v : JSval) : bool :=
  match v with JArr _ => true | _ => false end.

(** [opts.n || d] for an optional number. *)
Definition num_or (o : option Z) (d : Z) : Z :=
  match o with
  | Some n => if n =? 0 then d else n
  | None => d
  end.

Definition truthy_num (o : option Z) : bool :=
  match o with Some n => negb (n =? 0) | None => false end.

Definition truthy_str (o : option string) : bool :=
  match o with Some s => negb (String.eqb s "") | None => false end.

(** [s.includes(needle)]. *)
Definition includes (s needle : string) : bool :=
  match String.index 0 needle s with Some _ => true | None => false end.

(** [arr.slice(0, e)] for an integer [e]: a negative [e] counts from the
    end of the array. *)
Definition slice0 {A} (l : list A) (e : Z) : list A :=
  let len := Z.of_nat (length l) in
  let k := if e <? 0 then Z.max (len + e) 0 else Z.min e len in
  take (Z.to_nat k) l.

(** *** Dates

    A [Date] holds a time value in milliseconds since the epoch, or NaN
    (an invalid date, [None]). *)
Definition Date : Type := option Z.

Definition maxTime : Z := 8640000000000000.

(** [new Date(v)] for a number [v]: TimeClip. *)
Definition mkDate (v : Z) : Date :=
  if (- maxTime <=? v) && (v <=? maxTime) then Some v else None.

Definition getTime (d : Date) : option Z := d.

(** [a >= b] on two time values; false when either is NaN. *)
Definition time_ge (a b : option Z) : bool :=
  match a, b with
  | Some x, Some y => y <=? x
  | _, _ => false
  end.

Definition msPerDay : Z := 86400000.

(** Year, month (1..12) and day of the month of a day number counted
    from the epoch, in the proleptic Gregorian calendar. *)
Definition civil_from_days (days : Z) : Z * Z * Z :=
  let z := days + 719468 in
  let era := z / 146097 in
  let doe := z - era * 146097 in
  let yoe := (doe - doe / 1460 + doe / 36524 - doe / 146096) / 365 in
  let doy := doe - (365 * yoe + yoe / 4 - yoe / 100) in
  let mp := (5 * doy + 2) / 153 in
  let d := doy - (153 * mp + 2) / 5 + 1 in
  let m := if mp <? 10 then mp + 3 else mp - 9 in
  let y := yoe + era * 400 + (if m <=? 2 then 1 else 0) in
  (y, m, d).

Definition getUTCFullYear (d : Date) : option Z :=
  (λ t, (civil_from_days (t / msPerDay)).1.1) <$> d.
(** [getUTCMonth() + 1]. *)
Definition getUTCMonth1 (d : Date) : option Z :=
  (λ t, (civil_from_days (t / msPerDay)).1.2) <$> d.
Definition getUTCDate (d : Date) : option Z :=
  (λ t, (civil_from_days (t / msPerDay)).2) <$> d.
Definition getUTCHours (d : Date) : option Z :=
  (λ t, (t `mod` msPerDay) / 3600000) <$> d.
Definition getUTCMinutes (d : Date) : option Z :=
  (λ t, (t `mod` 3600000) / 60000) <$> d.
Definition getUTCSeconds (d : Date) : option Z :=
  (λ t, (t `mod` 60000) / 1000) <$> d.

(** [String(n)] for a number that may be NaN. *)
Definition num_to_string (n : option Z) : string :=
  match n with
  | Some z => NilZero.string_of_int (Z.to_int z)
  | None => "NaN"
  end.

(** [s.padStart(2, "0")]. *)
Definition padStart2 (s : string) : string :=
  match s with
  | "" => "00"
  | String c "" => String "0" (String c "")
  | _ => s
  end.

End JS.
Export JS.

(** ** Records (api.ts, interface Tweet) *)

Record Metrics : Type := {
  likes : Z;
  retweets : Z;
  replies : Z;
  quotes : Z;
  impressions : Z;
  bookmarks : Z;
}.

Record Tweet : Type := {
  id : string;
  text : string;
  author_id : string;
  username : string;
  name : string;
  created_at : string;
  conversation_id : string;
  metrics : Metrics;
  urls : list string;
  mentions : list string;
  hashtags : list string;
  tweet_url : string;
}.

Global Instance Metrics_eq_dec : EqDecision Metrics.
Proof. solve_decision. Defined.
Global Instance Tweet_eq_dec : EqDecision Tweet.
Proof. solve_decision. Defined.

(** ** The world the fetch pipeline runs in *)

Definition Params : Type := list (string * JSval).

(** What a fetch does that the outside can observe: a transport call
    ([apiGet]) or a pause ([sleep]). *)
Inductive Event : Type :=
| ECall (path : string) (params : Params)
| ESleep (ms : Z).

Definition is_call (e : Event) : bool :=
  match e with ECall _ _ => true | ESleep _ => false end.

Definition is_sleep (e : Event) : bool :=
  match e with ESleep _ => true | ECall _ _ => false end.

(** The number of transport calls in a log. *)
Definition calls (tr : list Event) : nat := length (List.filter is_call tr).

(** The number of transport calls to one endpoint. *)
Definition is_call_to (p : string) (e : Event) : bool :=
  match e with ECall q _ => String.eqb q p | ESleep _ => false end.

Definition calls_to (p : string) (tr : list Event) : nat :=
  length (List.filter (is_call_to p) tr).

(** Everything the code takes from outside itself:
    - [transport] is [apiGet] (api.ts:175) seen from its callers: a path and
      parameters go out, a parsed JSON body comes back or an error is
      thrown (rate limit, other status, missing credential), and the world
      moves on;
    - [wait] is the passing of time during [sleep];
    - [clock] is [Date.now()];
    - [Date_parse] is [new Date(s)] for a string, whose grammar is the
      JavaScript runtime's;
    - [parseTweet] is the normalization of one raw record (api.ts:73); it
      may throw (a [null] element). No property below depends on how it
      maps fields. *)
Class Runtime : Type := {
  World : Type;
  transport : string → Params → World → Exc JSval * World;
  wait : Z → World → World;
  clock : World → Z * World;
  Date_parse : string → Date;
  parseTweet : JSval → Exc Tweet;
}.

Record State (W : Type) : Type := mkState {
  world : W;
  log : list Event;
}.
Global Arguments mkState {W} _ _.
Global Arguments world {W} _.
Global Arguments log {W} _.

(** Computations that may throw and that change the world. A thrown error
    keeps the state reached when it was thrown. *)
Definition M `{Runtime} (A : Type) : Type :=
  State World → Exc A * State World.

Definition ret `{Runtime} {A} (a : A) : M A := λ s, (Ok a, s).

Definition bind `{Runtime} {A B} (m : M A) (k : A → M B) : M B :=
  λ s, match m s with
       | (Ok a, s') => k a s'
       | (Throw e, s') => (Throw e, s')
       end.

Notation "'do' x <- m ; k" := (bind m (λ x, k))
  (at level 10, x name, m at level 100, k at level 200).

Definition lift `{Runtime} {A} (r : Exc A) : M A := λ s, (r, s).

Definition throw `{Runtime} {A} (e : JSError) : M A := lift (Throw e).

(** [await apiGet(path, params)]. *)
Definition apiGet `{Runtime} (path : string) (params : Params) : M JSval :=
  λ s, let '(r, w) := transport path params (world s) in
       (r, mkState w (log s ++ [ECall path params])).

(** [await sleep(ms)]. *)
Definition sleep `{Runtime} (ms : Z) : M unit :=
  λ s, (Ok tt, mkState (wait ms (world s)) (log s ++ [ESleep ms])).

(** [Date.now()]. *)
Definition Date_now `{Runtime} : M Z :=
  λ s, let '(t, w) := clock (world s) in (Ok t, mkState w (log s)).

Definition RATE_DELAY_MS : Z := 200.

(** ** Parsing (api.ts:104-173) *)

Fixpoint mapM_exc {A B} (f : A → Exc B) (l : list A) : Exc (list B) :=
  match l with
  | [] => Ok []
  | x :: rest =>
      match f x with
      | Throw e => Throw e
      | Ok y => match mapM_exc f rest with
                | Throw e => Throw e
                | Ok ys => Ok (y :: ys)
                end
      end
  end.

Definition parseTweets `{Runtime} (rawTweets : JSval) : Exc (list Tweet) :=
  if negb (truthy rawTweets) || negb (isArray rawTweets) then Ok []
  else match rawTweets with
       | JArr items => mapM_exc parseTweet items
       | _ => Ok []
       end.

Definition is_digit (c : ascii) : bool :=
  ((48 <=? nat_of_ascii c) && (nat_of_ascii c <=? 57))%nat.

Definition digit_value (c : ascii) : Z := Z.of_nat (nat_of_ascii c) - 48.

(** The regular expression [/^(\d+)(m|h|d)$/]: one or more digits, read in
    base ten as [parseInt] does, then one unit letter, and nothing else.
    [acc] is the number read so far, [None] before the first digit. *)
Fixpoint match_shorthand (acc : option Z) (s : string) : option (Z * ascii) :=
  match s with
  | EmptyString => None
  | String c EmptyString =>
      match acc with
      | Some n =>
          if (Ascii.eqb c "m" || Ascii.eqb c "h" || Ascii.eqb c "d")%char
          then Some (n, c) else None
      | None => None
      end
  | String c rest =>
      if is_digit c
      then match_shorthand (Some (10 * default 0 acc + digit_value c)) rest
      else None
  end.

Definition shorthand_ms (num : Z) (unit : ascii) : Z :=
  if Ascii.eqb unit "m" then num * 60000
  else if Ascii.eqb unit "h" then num * 3600000
  else num * 86400000.

(** [parseSince] (api.ts:115): the [since:] operator to embed in the
    query, or [None] for [null]. A [Date] object is always truthy, also an
    invalid one, so a shorthand whose date is out of range is formatted
    all the same. *)
Definition parseSince `{Runtime} (since : string) : M (option string) :=
  do date <-
    match match_shorthand None since with
    | Some (num, unit) =>
        do now <- Date_now;
        ret (Some (mkDate (now - shorthand_ms num unit)))
    | None => ret None
    end;
  let date : option Date :=
    match date with
    | Some d => Some d
    | None =>
        if includes since "T" || includes since "-"
        then match Date_parse since with
             | Some t => Some (Some t)
             | None => None
             end
        else None
    end in
  match date with
  | None => ret None
  | Some date =>
      let y := num_to_string (getUTCFullYear date) in
      let mo := padStart2 (num_to_string (getUTCMonth1 date)) in
      let d := padStart2 (num_to_string (getUTCDate date)) in
      let h := padStart2 (num_to_string (getUTCHours date)) in
      let mi := padStart2 (num_to_string (getUTCMinutes date)) in
      let s := padStart2 (num_to_string (getUTCSeconds date)) in
      ret (Some ("since:" +:+ y +:+ "-" +:+ mo +:+ "-" +:+ d +:+ "_"
                   +:+ h +:+ ":" +:+ mi +:+ ":" +:+ s +:+ "_UTC"))
  end.

(** [parseSinceDate] (api.ts:155): the cutoff for the client-side filter,
    or [None] for [null]. *)
Definition parseSinceDate `{Runtime} (since : string) : M (option Date) :=
  match match_shorthand None since with
  | Some (num, unit) =>
      do now <- Date_now;
      ret (Some (mkDate (now - shorthand_ms num unit)))
  | None =>
      if includes since "T" || includes since "-"
      then match Date_parse since with
           | Some t => ret (Some (Some t))
           | None => ret None
           end
      else ret None
  end.

(** ** The pagination loop (api.ts:225-239, 271-282, 320-334)

    The three fetches run the same loop and differ in the path, the
    parameters and the name of the record-list field. *)
Record Endpoint : Type := {
  ep_path : string;
  ep_params : Params;
  ep_field : string;
}.

(** The parameters of the request for one page: [params.cursor] is set
    when [cursor] is truthy. *)
Definition page_params (ep : Endpoint) (cursor : JSval) : Params :=
  ep_params ep ++ (if truthy cursor then [("cursor", cursor)] else []).

(** [for (let page = 0; page < pages; page++) { ... }], entered at [page]
    with [cursor] and [allTweets]. [fuel] bounds the iterations left;
    [Z.to_nat (pages - page)] is enough ([fetch_pages_fuel]). *)
Fixpoint fetch_pages `{Runtime} (ep : Endpoint) (pages : Z) (fuel : nat)
    (page : Z) (cursor : JSval) (allTweets : list Tweet) : M (list Tweet) :=
  match fuel with
  | O => ret allTweets
  | S fuel' =>
      if page <? pages then
        let params := page_params ep cursor in
        do raw <- apiGet (ep_path ep) params;
        do rawTweets <- lift (get raw (ep_field ep));
        do tweets <- lift (parseTweets rawTweets);
        let allTweets := allTweets ++ tweets in
        do has_next_page <- lift (get raw "has_next_page");
        do next_cursor <- lift (get raw "next_cursor");
        if negb (truthy has_next_page) || negb (truthy next_cursor)
        then ret allTweets
        else
          do _ <- (if page <? pages - 1 then sleep RATE_DELAY_MS else ret tt);
          fetch_pages ep pages fuel' (page + 1) next_cursor allTweets
      else ret allTweets
  end.

Definition paginate `{Runtime} (ep : Endpoint) (pages : Z) : M (list Tweet) :=
  fetch_pages ep pages (Z.to_nat pages) 0 (JStr "") [].

(** ** search (api.ts:201) *)

Inductive SortOrder : Type := relevancy | recency.

Record SearchOpts : Type := {
  maxResults : option Z;
  pages : option Z;
  sortOrder : option SortOrder;
  since : option string;
}.

Definition queryType_of (o : option SortOrder) : string :=
  match o with Some recency => "Latest" | _ => "Top" end.

Definition search_endpoint (fullQuery queryType : string) : Endpoint :=
  {| ep_path := "/twitter/tweet/advanced_search";
     ep_params := [("query", JStr fullQuery); ("queryType", JStr queryType)];
     ep_field := "tweets" |}.

(** The query sent to the transport. *)
Definition search_fullQuery `{Runtime} (query : string) (opts : SearchOpts)
    : M string :=
  if truthy_str (since opts) then
    do sinceOp <- parseSince (default "" (since opts));
    match sinceOp with
    | Some op =>
        if negb (includes query "since:") then ret (query +:+ " " +:+ op)
        else ret query
    | None => ret query
    end
  else ret query.

(** The predicate of the client-side filter:
    [new Date(t.created_at).getTime() >= sinceDate.getTime()]. *)
Definition at_or_after `{Runtime} (cutoff : Date) (t : Tweet) : bool :=
  time_ge (getTime (Date_parse (created_at t))) (getTime cutoff).

(** The client-side date filter on the accumulated records. *)
Definition search_since_filter `{Runtime} (opts : SearchOpts)
    (allTweets : list Tweet) : M (list Tweet) :=
  if truthy_str (since opts) then
    do sinceDate <- parseSinceDate (default "" (since opts));
    match sinceDate with
    | Some sinceDate =>
        ret (List.filter (at_or_after sinceDate) allTweets)
    | None => ret allTweets
    end
  else ret allTweets.

Definition search_truncate (opts : SearchOpts) (allTweets : list Tweet)
    : list Tweet :=
  if truthy_num (maxResults opts)
  then slice0 allTweets (default 0 (maxResults opts))
  else allTweets.

Definition search `{Runtime} (query : string) (opts : SearchOpts)
    : M (list Tweet) :=
  let pages := num_or (pages opts) 1 in
  let queryType := queryType_of (sortOrder opts) in
  do fullQuery <- search_fullQuery query opts;
  do allTweets <- paginate (search_endpoint fullQuery queryType) pages;
  do allTweets <- search_since_filter opts allTweets;
  ret (search_truncate opts allTweets).

(** ** thread (api.ts:263) *)

Record ThreadOpts : Type := { thread_pages : option Z }.

Definition thread_endpoint (tweetId : string) : Endpoint :=
  {| ep_path := "/twitter/tweet/thread_context";
     ep_params := [("tweetId", JStr tweetId)];
     ep_field := "replies" |}.

Definition thread `{Runtime} (tweetId : string) (opts : ThreadOpts)
    : M (list Tweet) :=
  let pages := num_or (thread_pages opts) 2 in
  paginate (thread_endpoint tweetId) pages.

(** ** profile (api.ts:291) *)

Record ProfileOpts : Type := {
  count : option Z;
  includeReplies : option bool;
}.

(** [v === s] for a string literal [s]. *)
Definition strict_eq_str (v : JSval) (s : string) : bool :=
  match v with JStr s' => String.eqb s' s | _ => false end.

(** [v || d] on payload values. *)
Definition or_default (v d : JSval) : JSval := if truthy v then v else d.

(** [obj.k = v] on the fields of an object. *)
Fixpoint obj_set (k : string) (v : JSval) (fields : list (string * JSval))
    : list (string * JSval) :=
  match fields with
  | [] => [(k, v)]
  | (k', v') :: rest =>
      if String.eqb k k' then (k, v) :: rest else (k', v') :: obj_set k v rest
  end.

(** The normalization of the user object (api.ts:302-310). The module is
    strict code, so an assignment to a property of a primitive throws. An
    array takes the two properties as well; they are outside [JSval], and
    the array is returned as it is. *)
Definition normalize_user (user : JSval) : Exc JSval :=
  match user with
  | JObj fields =>
      let public_metrics :=
        JObj [("followers_count", or_default (assoc "followers" fields) (JNum 0));
              ("following_count", or_default (assoc "following" fields) (JNum 0));
              ("tweet_count", or_default (assoc "statusesCount" fields) (JNum 0));
              ("like_count", or_default (assoc "favouritesCount" fields) (JNum 0))] in
      Ok (JObj (obj_set "public_metrics" public_metrics
                  (obj_set "username" (assoc "userName" fields) fields)))
  | JArr items => Ok (JArr items)
  | _ => Throw TypeError
  end.

Definition timeline_path : string := "/twitter/user/last_tweets".

Definition profile_endpoint (username : string) (opts : ProfileOpts) : Endpoint :=
  {| ep_path := timeline_path;
     ep_params :=
       [("userName", JStr username);
        ("includeReplies",
         JStr (if default false (includeReplies opts) then "true" else "false"))];
     ep_field := "tweets" |}.

(** [Math.ceil(count / 20)] for an integer [count]. *)
Definition pagesToFetch (count : Z) : Z := - ((- count) / 20).

Definition profile `{Runtime} (username : string) (opts : ProfileOpts)
    : M (JSval * list Tweet) :=
  do userRaw <- apiGet "/twitter/user/info" [("userName", JStr username)];
  do data <- lift (get userRaw "data");
  do status <- lift (get userRaw "status");
  if negb (truthy data) || strict_eq_str status "error"
  then throw (Error ("User @" +:+ username +:+ " not found"))
  else
    do user <- lift (normalize_user data);
    do _ <- sleep RATE_DELAY_MS;
    let count := num_or (count opts) 20 in
    do allTweets <- paginate (profile_endpoint username opts) (pagesToFetch count);
    ret (user, slice0 allTweets count).

(** ** Record transforms (api.ts:357-389) *)

Inductive Metric : Type := Likes | Impressions | Retweets | Replies.

(** [t.metrics[metric]]. *)
Definition metric_of (m : Metric) (t : Tweet) : Z :=
  match m with
  | Likes => likes (metrics t)
  | Impressions => impressions (metrics t)
  | Retweets => retweets (metrics t)
  | Replies => replies (metrics t)
  end.

(** [Array.prototype.sort(cmp)] on the contents of an array. The language
    fixes it to be stable, and to order by [cmp] when [cmp] is a consistent
    comparator; every sort with these two properties gives the same
    array, and insertion from the right is one: [x] goes in front of the
    first element that it does not have to follow. *)
Fixpoint sort_insert {A} (cmp : A → A → Z) (x : A) (sorted : list A) : list A :=
  match sorted with
  | [] => [x]
  | y :: rest =>
      if cmp x y <=? 0 then x :: y :: rest else y :: sort_insert cmp x rest
  end.

Fixpoint array_sort {A} (cmp : A → A → Z) (l : list A) : list A :=
  match l with
  | [] => []
  | x :: rest => sort_insert cmp x (array_sort cmp rest)
  end.

(** The comparator of [sortBy]: [(a, b) => b.metrics[metric] - a.metrics[metric]]. *)
Definition by_metric_desc (metric : Metric) (a b : Tweet) : Z :=
  metric_of metric b - metric_of metric a.

(** Descending order of the metric: [a] may stand in front of [b]. *)
Definition ranks_before (metric : Metric) (a b : Tweet) : Prop :=
  metric_of metric b ≤ metric_of metric a.

(** [sortBy] on the contents of its argument. *)
Definition sortBy (tweets : list Tweet) (metric : Metric) : list Tweet :=
  array_sort (by_metric_desc metric) tweets.

(** Arrays are objects: a heap maps the reference of each array to its
    contents. *)
Definition ref : Type := positive.

Definition fresh_ref (h : gmap ref (list Tweet)) : ref := fresh (dom h).

(** [sortBy] on references: [[...tweets]] allocates a copy, [.sort]
    sorts the copy in place, and the copy is returned. [None] when
    [tweets] is not an array of the heap. *)
Definition sortBy_ref (tweets : ref) (metric : Metric)
    (h : gmap ref (list Tweet)) : option (ref * gmap ref (list Tweet)) :=
  match h !! tweets with
  | None => None
  | Some contents =>
      let copy := fresh_ref h in
      let h1 := <[copy := contents]> h in
      let h2 := alter (array_sort (by_metric_desc metric)) copy h1 in
      Some (copy, h2)
  end.

(** [dedupe]: the filter callback reads and updates [seen]. *)
Fixpoint dedupe_from (seen : gset string) (tweets : list Tweet) : list Tweet :=
  match tweets with
  | [] => []
  | t :: rest =>
      if decide (id t ∈ seen) then dedupe_from seen rest
      else t :: dedupe_from ({[id t]} ∪ seen) rest
  end.

Definition dedupe (tweets : list Tweet) : list Tweet := dedupe_from ∅ tweets.

(** The first record of an array that has the identifier [i]. *)
Definition first_with_id (i : string) (tweets : list Tweet) : option Tweet :=
  List.find (λ t, String.eqb (id t) i) tweets.

(** ** Pacing of a log

    A paced log is one transport call, or a transport call, a pause of
    [RATE_DELAY_MS] and a paced log: calls and pauses alternate, and the
    log starts and ends with a call. *)
Fixpoint well_paced (tr : list Event) : bool :=
  match tr with
  | [ECall _ _] => true
  | ECall _ _ :: ESleep ms :: rest => (ms =? RATE_DELAY_MS) && well_paced rest
  | _ => false
  end.

(** The events of a loop: a call to the endpoint with its parameters and
    at most a cursor, or the fixed pause. *)
Definition loop_event (ep : Endpoint) (e : Event) : Prop :=
  match e with
  | ECall p ps => p = ep_path ep ∧ ∃ cursor, ps = page_params ep cursor
  | ESleep ms => ms = RATE_DELAY_MS
  end.

(** The user lookup that [profile] makes before its loop. *)
Definition user_info_call (username : string) : Event :=
  ECall "/twitter/user/info" [("userName", JStr username)].

(** What a log does to the world when its events happen in turn: a
    transport call leaves the world in which its response arrived, a pause
    of [ms] is [wait ms]. *)
Fixpoint replay `{Runtime} (tr : list Event) (w : World) : World :=
  match tr with
  | [] => w
  | ECall path params :: tr => replay tr (transport path params w).2
  | ESleep ms :: tr => replay tr (wait ms w)
  end.

(** ** The cache store *)

Module Cache.

(** Modelled from the spec: lib/cache.ts is not among the sources (its
    tests are). The serialized form of a record sequence and the key
    derivation are the store's choice (section 4.1 of the spec): [parse]
    gives [None] on an unreadable payload, [cacheKey] is a function of the
    query and the parameter string. *)
Class Codec : Type := {
  Payload : Type;
  serialize : list Tweet → Payload;
  parse : Payload → option (list Tweet);
  cacheKey : string → string → string;
}.

(** Modelled from the spec: an entry is the stored payload and its
    last-write time, in milliseconds. *)
Record Entry (P : Type) : Type := mkEntry {
  payload : P;
  mtime : Z;
}.
Global Arguments mkEntry {P} _ _.
Global Arguments payload {P} _.
Global Arguments mtime {P} _.

(** Modelled from the spec: the documented default of [ttlMillis], 15 minutes. *)
Definition DEFAULT_TTL_MS : Z := 900000.

(** Modelled from the spec: [set(query, params, records)] at wall-clock
    time [now] replaces the entry of the derived key in full. *)
Definition set `{Codec} (query params : string) (records : list Tweet)
    (now : Z) (store : gmap string (Entry Payload))
    : gmap string (Entry Payload) :=
  <[cacheKey query params := mkEntry (serialize records) now]> store.

(** Modelled from the spec: [get(query, params, ttlMillis)] at wall-clock
    time [now]: the stored records when the age, [now] minus the last-write
    time, is at most [ttlMillis]; absent when there is no entry, when the
    payload is unreadable or when the age exceeds [ttlMillis]. *)
Definition get `{Codec} (query params : string) (ttlMillis : Z)
    (now : Z) (store : gmap string (Entry Payload)) : option (list Tweet) :=
  match store !! cacheKey query params with
  | None => None
  | Some e => if now - mtime e <=? ttlMillis then parse (payload e) else None
  end.

(** A store kept in memory: the payload is the record sequence itself, or
    [None] for unreadable contents; the key is the concatenation. *)
Definition memory_codec : Codec :=
  {| Payload := option (list Tweet);
     serialize := Some;
     parse := λ p, p;
     cacheKey := λ q p, q +:+ "|" +:+ p |}.

End Cache.

(** ** A scripted runtime, for running the pipeline on concrete inputs *)

Module Script.

Fixpoint decimal_from (acc : Z) (s : string) : option Z :=
  match s with
  | EmptyString => Some acc
  | String c rest =>
      if is_digit c then decimal_from (10 * acc + digit_value c) rest else None
  end.

Definition decimal (s : string) : option Z :=
  match s with EmptyString => None | _ => decimal_from 0 s end.

Definition days_from_civil (y m d : Z) : Z :=
  let y := if m <=? 2 then y - 1 else y in
  let era := y / 400 in
  let yoe := y - era * 400 in
  let doy := (153 * (if 2 <? m then m - 3 else m + 9) + 2) / 5 + d - 1 in
  let doe := yoe * 365 + yoe / 4 - yoe / 100 + doy in
  era * 146097 + doe - 719468.

(** The day number of a calendar date written [YYYY-MM-DD] at the start
    of [s]; a month or a day out of range (a month 13, a day 31 in a
    month of 30 days) is no date. *)
Definition iso_day (s : string) : option Z :=
  let num (i n : nat) := decimal (substring i n s) in
  let sep (i : nat) (c : string) := String.eqb (substring i 1 s) c in
  if sep 4%nat "-" && sep 7%nat "-" then
    y ← num 0%nat 4%nat; mo ← num 5%nat 2%nat; d ← num 8%nat 2%nat;
    let days := days_from_civil y mo d in
    let '(y', mo', d') := civil_from_days days in
    if (y' =? y) && (mo' =? mo) && (d' =? d) then Some days else None
  else None.

(** The milliseconds into the day of a time written [HH:mm:ss.sssZ] from
    position 11 of [s]; an hour above 23 other than [24:00:00.000], a
    minute or a second above 59 is no time. *)
Definition iso_time (s : string) : option Z :=
  let num (i n : nat) := decimal (substring i n s) in
  let sep (i : nat) (c : string) := String.eqb (substring i 1 s) c in
  if sep 13%nat ":" && sep 16%nat ":" && sep 19%nat "." && sep 23%nat "Z" then
    h ← num 11%nat 2%nat; mi ← num 14%nat 2%nat; sec ← num 17%nat 2%nat;
    ms ← num 20%nat 3%nat;
    if ((h <=? 23) || ((h =? 24) && (mi =? 0) && (sec =? 0) && (ms =? 0)))
       && (mi <=? 59) && (sec <=? 59)
    then Some (h * 3600000 + mi * 60000 + sec * 1000 + ms) else None
  else None.

(** [new Date(s)] on the two ISO forms that the runs below use: the
    format of [toISOString], [YYYY-MM-DDTHH:mm:ss.sssZ], and the date
    alone, [YYYY-MM-DD], which is midnight UTC. A JavaScript runtime
    reads further forms, among them the one of the payloads
    ([Tue Dec 10 07:00:30 +0000 2024]); the scripted runtime reads only
    these two and takes every other string for an invalid date, so its
    runs are given ISO timestamps. *)
Definition iso_parse (s : string) : Date :=
  if (String.length s =? 24)%nat
     && String.eqb (substring 10%nat 1%nat s) "T" then
    days ← iso_day s; t ← iso_time s; Some (days * msPerDay + t)
  else if (String.length s =? 10)%nat then
    days ← iso_day s; Some (days * msPerDay)
  else None.

Definition zero_pad (width : nat) (s : string) : string :=
  String.concat "" (replicate (width - String.length s) "0") +:+ s.

(** [d.toISOString()] for the years 0 to 9999. *)
Definition iso_string (t : Z) : string :=
  let field (width : nat) (v : option Z) := zero_pad width (num_to_string v) in
  field 4%nat (getUTCFullYear (Some t)) +:+ "-"
  +:+ field 2%nat (getUTCMonth1 (Some t)) +:+ "-"
  +:+ field 2%nat (getUTCDate (Some t)) +:+ "T"
  +:+ field 2%nat (getUTCHours (Some t)) +:+ ":"
  +:+ field 2%nat (getUTCMinutes (Some t)) +:+ ":"
  +:+ field 2%nat (getUTCSeconds (Some t)) +:+ "."
  +:+ field 3%nat (Some (t `mod` 1000)) +:+ "Z".

(** [parseTwitterDate] (api.ts:61) over [iso_parse]. *)
Definition flat_parseTwitterDate (dateStr : string) : string :=
  match iso_parse dateStr with
  | Some t => iso_string t
  | None => dateStr
  end.

Definition str_field (k : string) (fields : list (string * JSval)) (d : string)
    : string :=
  match assoc k fields with JStr s => if String.eqb s "" then d else s | _ => d end.

Definition num_field (k : string) (fields : list (string * JSval)) : Z :=
  match assoc k fields with JNum n => n | _ => 0 end.

(** [`${v}`] for a payload value. *)
Fixpoint template_of (v : JSval) : string :=
  match v with
  | JUndefined => "undefined"
  | JNull => "null"
  | JBool b => if b then "true" else "false"
  | JNum n => num_to_string (Some n)
  | JStr s => s
  | JArr items =>
      String.concat ","
        (List.map (λ v, match v with
                        | JUndefined | JNull => ""
                        | _ => template_of v
                        end) items)
  | JObj _ => "[object Object]"
  end.

(** A normalization for payloads that follow the documented schema
    (strings for the identifier, the text and the timestamp, numbers for
    the counters) and have no author or entities: the identifier, text,
    timestamp and counters are read as [parseTweet] reads them, and the
    permalink is built from the raw identifier. *)
Definition flat_parseTweet (t : JSval) : Exc Tweet :=
  match t with
  | JUndefined | JNull => Throw TypeError
  | JObj f =>
      Ok {| id := str_field "id" f ""; text := str_field "text" f "";
            author_id := ""; username := "?"; name := "?";
            created_at := flat_parseTwitterDate (str_field "createdAt" f "");
            conversation_id := str_field "conversationId" f "";
            metrics := {| likes := num_field "likeCount" f;
                          retweets := num_field "retweetCount" f;
                          replies := num_field "replyCount" f;
                          quotes := num_field "quoteCount" f;
                          impressions := num_field "viewCount" f;
                          bookmarks := num_field "bookmarkCount" f |};
            urls := []; mentions := []; hashtags := [];
            tweet_url := str_field "url" f
              ("https://x.com/?/status/" +:+ template_of (assoc "id" f)) |}
  | _ =>
      Ok {| id := ""; text := ""; author_id := ""; username := "?"; name := "?";
            created_at := ""; conversation_id := "";
            metrics := {| likes := 0; retweets := 0; replies := 0; quotes := 0;
                          impressions := 0; bookmarks := 0 |};
            urls := []; mentions := []; hashtags := [];
            tweet_url := "https://x.com/?/status/undefined" |}
  end.

(** The world is the responses still to come and the time: each
    transport call takes the next response, a call beyond the script is
    rate limited, and time passes only in [sleep]. *)
Definition scripted : Runtime :=
  {| World := (list (Exc JSval) * Z)%type;
     transport := λ _ _ w,
       match w.1 with
       | [] => (Throw (Error "Rate limited by twitterapi.io. Try again shortly."), w)
       | r :: rest => (r, (rest, w.2))
       end;
     wait := λ ms w, (w.1, w.2 + ms);
     clock := λ w, (w.2, w);
     Date_parse := iso_parse;
     parseTweet := flat_parseTweet |}.

Definition start (responses : list (Exc JSval)) (now : Z)
    : State (@World scripted) :=
  mkState (W := @World scripted) (responses, now) [].

(** A raw record with an identifier and a timestamp. *)
Definition raw_tweet (i created : string) : JSval :=
  JObj [("id", JStr i); ("createdAt", JStr created)].

Definition page (tweets : list JSval) (has_next : bool) (cursor : JSval) : Exc JSval :=
  Ok (JObj [("tweets", JArr tweets); ("has_next_page", JBool has_next);
            ("next_cursor", cursor)]).

(** A search for the last day at 2024-12-10T07:00:30Z whose page holds a
    record of that day and one of nine days before. *)
Definition since_run : State (@World scripted) :=
  start
    [page [raw_tweet "1" "2024-12-10T07:00:00.000Z";
           raw_tweet "2" "2024-12-01T07:00:30.000Z"] false JNull]
    1733814030000.

Definition since_opts : SearchOpts :=
  {| maxResults := None; pages := None; sortOrder := None; since := Some "1d" |}.

End Script.

(** ** filterEngagement (api.ts:367) *)

Record EngagementOpts : Type := {
  minLikes : option Z;
  minImpressions : option Z;
}.

(** The filter callback: a threshold that is absent or 0 is not tested. *)
Definition passes_engagement (opts : EngagementOpts) (t : Tweet) : bool :=
  if truthy_num (minLikes opts)
     && (likes (metrics t) <? default 0 (minLikes opts))
  then false
  else if truthy_num (minImpressions opts)
          && (impressions (metrics t) <? default 0 (minImpressions opts))
  then false
  else true.

Definition filterEngagement (tweets : list Tweet) (opts : EngagementOpts)
    : list Tweet :=
  List.filter (passes_engagement opts) tweets.

(** The number of pauses in a log. *)
Definition pauses (tr : list Event) : nat := length (List.filter is_sleep tr).

(** The events after the first call of a loop: each call carries a truthy
    cursor after the parameters of the endpoint. *)
Definition follow_up_event (ep : Endpoint) (e : Event) : Prop :=
  match e with
  | ECall p ps =>
      p = ep_path ep
      ∧ ∃ cursor, truthy cursor = true ∧ ps = ep_params ep ++ [("cursor", cursor)]
  | ESleep ms => ms = RATE_DELAY_MS
  end.

(** ** The transport (api.ts:9-29, 175-194) *)

Module Http.

Definition BASE : string := "https://api.twitterapi.io".

(** What [fetch] resolves to: the status, and what [res.text()] and
    [res.json()] give, each of which may fail. *)
Record Response : Type := {
  status : Z;
  text : Exc string;
  json : Exc JSval;
}.

(** [res.ok]: a status from 200 to 299. *)
Definition ok (res : Response) : bool :=
  (200 <=? status res) && (status res <=? 299).

(** A request as [apiGet] sends it: the URL and the [x-api-key] header. *)
Record Request : Type := {
  url : string;
  x_api_key : string;
}.

(** The host of the transport:
    - [env_key] is [process.env.TWITTERAPI_IO_KEY];
    - [env_file] is the contents of [~/.config/env/global.env], [None]
      when reading it throws;
    - [encode] is [new URLSearchParams(params).toString()];
    - [fetch] is the network, which may reject. *)
Class Host : Type := {
  HostWorld : Type;
  env_key : HostWorld → option string;
  env_file : HostWorld → option string;
  encode : Params → string;
  fetch : Request → HostWorld → Exc Response * HostWorld;
}.

Definition key_marker : string := "TWITTERAPI_IO_KEY=".

Definition double_quote : ascii := ascii_of_nat 34.
Definition single_quote : ascii := ascii_of_nat 39.
Definition newline : ascii := ascii_of_nat 10.

Definition is_quote (c : ascii) : bool :=
  Ascii.eqb c double_quote || Ascii.eqb c single_quote.

(** The characters of the captured group: any but a double quote, a
    single quote and a newline. *)
Definition key_char (c : ascii) : bool :=
  negb (is_quote c || Ascii.eqb c newline).

(** The longest run of [key_char]s at the head of [s]. *)
Fixpoint take_key (s : string) : string :=
  match s with
  | EmptyString => EmptyString
  | String c rest => if key_char c then String c (take_key rest) else EmptyString
  end.

(** [s] without the prefix [p], when it has it. *)
Fixpoint strip_prefix (p s : string) : option string :=
  match p, s with
  | EmptyString, _ => Some s
  | String a p', String b s' => if Ascii.eqb a b then strip_prefix p' s' else None
  | String _ _, EmptyString => None
  end.

(** The optional quote after the marker: one quote is taken when
    there is one. Without it the next character would be that quote,
    which the group refuses, so giving the quote back never helps. *)
Definition skip_quote (s : string) : string :=
  match s with
  | String c rest => if is_quote c then rest else s
  | EmptyString => s
  end.

(** The regular expression of [getApiKey] (the marker, an optional
    quote, one or more characters of the group) tried at the head of [s]:
    the captured group. *)
Definition match_key_here (s : string) : option string :=
  match strip_prefix key_marker s with
  | None => None
  | Some rest =>
      match take_key (skip_quote rest) with
      | EmptyString => None
      | key => Some key
      end
  end.

(** [envFile.match(...)]: the leftmost position where the expression
    matches. *)
Fixpoint find_key (s : string) : option string :=
  match match_key_here s with
  | Some key => Some key
  | None =>
      match s with
      | EmptyString => None
      | String _ rest => find_key rest
      end
  end.

Definition key_not_found : JSError :=
  Error "TWITTERAPI_IO_KEY not found in env or ~/.config/env/global.env".

(** [getApiKey] (api.ts:12). *)
Definition getApiKey `{Host} (w : HostWorld) : Exc string :=
  if truthy_str (env_key w) then Ok (default "" (env_key w))
  else
    match env_file w with
    | Some envFile =>
        match find_key envFile with
        | Some key => Ok key
        | None => Throw key_not_found
        end
    | None => Throw key_not_found
    end.

Definition rate_limited : JSError :=
  Error "Rate limited by twitterapi.io. Try again shortly.".

(** The message of a failed request: the status and the first 200
    characters of the body. *)
Definition status_error (res : Response) (body : string) : JSError :=
  Error ("twitterapi.io " +:+ num_to_string (Some (status res)) +:+ ": "
         +:+ substring 0 200 body).

(** The URL of a request. *)
Definition request_url `{Host} (path : string) (params : Params) : string :=
  let qs := encode params in
  BASE +:+ path +:+ (if String.eqb qs "" then "" else "?" +:+ qs).

(** [apiGet] (api.ts:175) on the host and the requests sent so far. *)
Definition apiGet `{Host} (path : string) (params : Params)
    (w : HostWorld * list Request) : Exc JSval * (HostWorld * list Request) :=
  match getApiKey w.1 with
  | Throw e => (Throw e, w)
  | Ok apiKey =>
      let req := {| url := request_url path params; x_api_key := apiKey |} in
      let '(r, host) := fetch req w.1 in
      let w' := (host, w.2 ++ [req]) in
      match r with
      | Throw e => (Throw e, w')
      | Ok res =>
          if status res =? 429 then (Throw rate_limited, w')
          else if negb (ok res) then
            match text res with
            | Throw e => (Throw e, w')
            | Ok body => (Throw (status_error res body), w')
            end
          else (json res, w')
      end
  end.

(** The pipeline over this transport: the world is the host and the
    requests sent; time and the normalization stay parameters. *)
Definition runtime `{Host} (host_wait : Z → HostWorld → HostWorld)
    (host_clock : HostWorld → Z * HostWorld)
    (date_parse : string → Date) (normalize : JSval → Exc Tweet) : Runtime :=
  {| World := (HostWorld * list Request)%type;
     transport := apiGet;
     wait := λ ms w, (host_wait ms w.1, w.2);
     clock := λ w, let '(t, host) := host_clock w.1 in (t, (host, w.2));
     Date_parse := date_parse;
     parseTweet := normalize |}.

End Http.

(** ** Normalization of one record (api.ts:61-102)

    The raw record is taken at the types of the documented response
    (references/x-api.md): every field may be absent, and a field that is
    present has its documented type. *)

Module Schema.

Record RawAuthor : Type := {
  raw_author_id : option string;
  raw_userName : option string;
  raw_author_name : option string;
}.

Record RawUrl : Type := {
  raw_expanded_url : option string;
  raw_short_url : option string;
}.

Record RawMention : Type := {
  raw_mention_username : option string;
  raw_mention_userName : option string;
}.

Record RawHashtag : Type := {
  raw_tag : option string;
  raw_tag_text : option string;
}.

Record RawEntities : Type := {
  raw_urls : option (list RawUrl);
  raw_mentions : option (list RawMention);
  raw_hashtags : option (list RawHashtag);
}.

Record RawTweet : Type := {
  raw_id : option string;
  raw_text : option string;
  raw_author : option RawAuthor;
  raw_createdAt : option string;
  raw_conversationId : option string;
  raw_likeCount : option Z;
  raw_retweetCount : option Z;
  raw_replyCount : option Z;
  raw_quoteCount : option Z;
  raw_viewCount : option Z;
  raw_bookmarkCount : option Z;
  raw_entities : option RawEntities;
  raw_url : option string;
}.

(** [s || d] for an optional string. *)
Definition str_or (o : option string) (d : string) : string :=
  if truthy_str o then default "" o else d.

(** [a || b] on two optional strings. *)
Definition or_else (a b : option string) : option string :=
  if truthy_str a then a else b.

(** [.filter(Boolean)] on optional strings: the truthy ones. *)
Definition filter_Boolean (l : list (option string)) : list string :=
  default "" <$> List.filter truthy_str l.

(** A value inside a template literal: an absent one reads [undefined]. *)
Definition template (o : option string) : string := default "undefined" o.

(** [parseTwitterDate] (api.ts:61); [toISOString] is the runtime's. *)
Definition parseTwitterDate `{Runtime} (toISOString : Z → string)
    (dateStr : string) : string :=
  match Date_parse dateStr with
  | Some t => toISOString t
  | None => dateStr
  end.

(** [t.author || {}]. *)
Definition no_author : RawAuthor :=
  {| raw_author_id := None; raw_userName := None; raw_author_name := None |}.

(** [parseTweet] (api.ts:73). *)
Definition parseTweet `{Runtime} (toISOString : Z → string) (t : RawTweet)
    : Tweet :=
  let author := default no_author (raw_author t) in
  {| id := str_or (raw_id t) "";
     text := str_or (raw_text t) "";
     author_id := str_or (raw_author_id author) "";
     username := str_or (raw_userName author) "?";
     name := str_or (raw_author_name author) "?";
     created_at := parseTwitterDate toISOString (str_or (raw_createdAt t) "");
     conversation_id := str_or (raw_conversationId t) "";
     metrics :=
       {| likes := num_or (raw_likeCount t) 0;
          retweets := num_or (raw_retweetCount t) 0;
          replies := num_or (raw_replyCount t) 0;
          quotes := num_or (raw_quoteCount t) 0;
          impressions := num_or (raw_viewCount t) 0;
          bookmarks := num_or (raw_bookmarkCount t) 0 |};
     urls :=
       filter_Boolean
         (List.map (λ u, or_else (raw_expanded_url u) (raw_short_url u))
            (default [] (raw_entities t ≫= raw_urls)));
     mentions :=
       filter_Boolean
         (List.map (λ m, or_else (raw_mention_username m) (raw_mention_userName m))
            (default [] (raw_entities t ≫= raw_mentions)));
     hashtags :=
       filter_Boolean
         (List.map (λ h, or_else (raw_tag h) (raw_tag_text h))
            (default [] (raw_entities t ≫= raw_hashtags)));
     tweet_url :=
       str_or (raw_url t)
         ("https://x.com/" +:+ str_or (raw_userName author) "?" +:+ "/status/"
          +:+ template (raw_id t)) |}.

End Schema.

(** ** Inputs for running the transport and the transforms *)

Module Samples.

(** A host with a fixed environment whose network answers from a list;
    the query string is the keys and string values, unescaped. *)
Definition host (key file : option string) : Http.Host :=
  {| Http.HostWorld := list (Exc Http.Response);
     Http.env_key := λ _, key;
     Http.env_file := λ _, file;
     Http.encode := λ params,
       String.concat "&"
         (List.map (λ kv, kv.1 +:+ "=" +:+
                     match kv.2 with JStr s => s | _ => "" end) params);
     Http.fetch := λ _ w,
       match w with
       | [] => (Throw (Error "fetch failed"), [])
       | r :: rest => (r, rest)
       end |}.

Definition pad (width : nat) (s : string) : string := Script.zero_pad width s.

(** [toISOString] for the years 0 to 9999. *)
Definition toISOString (t : Z) : string := Script.iso_string t.

(** A record of the unit tests with its likes and impressions. *)
Definition tweet (i : string) (l v : Z) : Tweet :=
  {| id := i; text := "test tweet"; author_id := "u1"; username := "testuser";
     name := "Test User"; created_at := "2026-02-25T12:00:00.000Z";
     conversation_id := "1";
     metrics := {| likes := l; retweets := 0; replies := 0; quotes := 0;
                   impressions := v; bookmarks := 0 |};
     urls := []; mentions := []; hashtags := [];
     tweet_url := "https://x.com/testuser/status/1" |}.

(** A payload dated [yesterday], which is no timestamp. *)
Definition undated : Schema.RawTweet :=
  {| Schema.raw_id := Some "3"; Schema.raw_text := Some "hello";
     Schema.raw_author := None;
     Schema.raw_createdAt := Some "yesterday";
     Schema.raw_conversationId := None;
     Schema.raw_likeCount := Some 7; Schema.raw_retweetCount := None;
     Schema.raw_replyCount := None; Schema.raw_quoteCount := None;
     Schema.raw_viewCount := None; Schema.raw_bookmarkCount := None;
     Schema.raw_entities := None; Schema.raw_url := None |}.

End Samples.

(** The operator that [parseSince] writes for a date:
    [since:YYYY-MM-DD_HH:MM:SS_UTC], from the UTC fields of the date. *)
Definition since_operator (date : Date) : string :=
  "since:" +:+ num_to_string (getUTCFullYear date)
  +:+ "-" +:+ padStart2 (num_to_string (getUTCMonth1 date))
  +:+ "-" +:+ padStart2 (num_to_string (getUTCDate date))
  +:+ "_" +:+ padStart2 (num_to_string (getUTCHours date))
  +:+ ":" +:+ padStart2 (num_to_string (getUTCMinutes date))
  +:+ ":" +:+ padStart2 (num_to_string (getUTCSeconds date))
  +:+ "_UTC".

(** The shape of a shorthand, as the regular expression of [parseSince]
    words it: one or more decimal digits of value [num], then one of the
    letters m, h and d, and nothing else. *)
Definition shorthand_shape (s : string) (num : Z) (unit : ascii) : Prop :=
  ∃ digits, s = digits +:+ String unit EmptyString
            ∧ Script.decimal digits = Some num
            ∧ (unit = "m" ∨ unit = "h" ∨ unit = "d")%char.

(** * Properties *)

(** ** Logs *)

Lemma calls_app (tr1 tr2 : list Event) :
  calls (tr1 ++ tr2) = (calls tr1 + calls tr2)%nat.
Proof. unfold calls. by rewrite List.filter_app, length_app. Qed.

Lemma calls_to_app (p : string) (tr1 tr2 : list Event) :
  calls_to p (tr1 ++ tr2) = (calls_to p tr1 + calls_to p tr2)%nat.
Proof. unfold calls_to. by rewrite List.filter_app, length_app. Qed.

Lemma well_paced_calls (tr : list Event) :
  well_paced tr = true → (1 ≤ calls tr)%nat.
Proof.
  destruct tr as [|[p ps|ms] tr]; simpl; try discriminate.
  intros _. unfold calls. simpl. lia.
Qed.

Lemma well_paced_cons_sleep (p : string) (ps : Params) (tr : list Event) :
  well_paced tr = true →
  well_paced (ECall p ps :: ESleep RATE_DELAY_MS :: tr) = true.
Proof. intros Htr. simpl. by rewrite Htr. Qed.

(** Induction along a paced log, two events at a time. *)
Lemma well_paced_induction (P : list Event → Prop) :
  (∀ p ps, P [ECall p ps]) →
  (∀ p ps rest, well_paced rest = true → P rest →
     P (ECall p ps :: ESleep RATE_DELAY_MS :: rest)) →
  ∀ tr, well_paced tr = true → P tr.
Proof.
  intros Hone Hstep tr.
  assert (Hlen : ∀ n tr, (length tr ≤ n)%nat → well_paced tr = true → P tr);
    [|by apply (Hlen (length tr))].
  clear tr. induction n as [|n IH]; intros tr Hn Hp.
  - destruct tr; [done|simpl in Hn; lia].
  - destruct tr as [|[p ps|ms] [|[p' ps'|ms'] rest]]; try done.
    simpl in Hp. apply andb_true_iff in Hp as [Hms Hp].
    apply Z.eqb_eq in Hms. subst ms'.
    apply Hstep; [done|]. apply IH; [simpl in Hn; lia|done].
Qed.

(** A paced log ends with a transport call: there is no trailing pause. *)
Lemma well_paced_last (tr : list Event) :
  well_paced tr = true → ∃ c, last tr = Some c ∧ is_call c = true.
Proof.
  revert tr. apply well_paced_induction.
  - intros p ps. by eexists.
  - intros p ps rest _ (c & Hlast & Hc). exists c. split; [|done].
    by rewrite !last_cons, Hlast.
Qed.

(** In a paced log, the event after a transport call is the pause. *)
Lemma well_paced_after_call (tr pre post : list Event) (e1 e2 : Event) :
  well_paced tr = true → tr = pre ++ e1 :: e2 :: post →
  is_call e1 = true → e2 = ESleep RATE_DELAY_MS.
Proof.
  intros Hp. revert tr Hp pre. apply (well_paced_induction
    (λ tr, ∀ pre, tr = pre ++ e1 :: e2 :: post → is_call e1 = true →
                  e2 = ESleep RATE_DELAY_MS)).
  - intros p ps [|x [|y pre]]; simpl; intros; simplify_eq.
  - intros p ps rest _ IH [|x [|y pre]]; simpl; intros Heq Hc; simplify_eq.
    all: try done.
    by eapply IH.
Qed.

(** A paced log starts with a transport call. *)
Lemma well_paced_first (tr : list Event) :
  well_paced tr = true → ∃ c rest, tr = c :: rest ∧ is_call c = true.
Proof. destruct tr as [|[p ps|ms] rest]; [done| |done]. by eauto. Qed.

(** In a paced log, the event after a pause is a transport call. *)
Lemma well_paced_after_sleep (tr pre post : list Event) (e1 e2 : Event) :
  well_paced tr = true → tr = pre ++ e1 :: e2 :: post →
  is_sleep e1 = true → is_call e2 = true.
Proof.
  intros Hp. revert tr Hp pre. apply (well_paced_induction
    (λ tr, ∀ pre, tr = pre ++ e1 :: e2 :: post → is_sleep e1 = true →
                  is_call e2 = true)).
  - intros p ps [|x [|y pre]]; simpl; intros; simplify_eq.
  - intros p ps rest Hrest IH [|x [|y pre]]; simpl; intros Heq Hc; simplify_eq.
    + destruct (well_paced_first _ Hrest) as (c & rest' & Hc' & ?).
      by simplify_eq.
    + by eapply IH.
Qed.

(** Every pause of a paced log lasts [RATE_DELAY_MS]. *)
Lemma well_paced_sleeps (tr : list Event) :
  well_paced tr = true →
  Forall (λ e, is_sleep e = true → e = ESleep RATE_DELAY_MS) tr.
Proof.
  revert tr. apply well_paced_induction.
  - intros p ps. by repeat constructor.
  - intros p ps rest _ IH. by repeat constructor.
Qed.

(** ** Logs and the world *)

Lemma replay_app `{Runtime} (tr1 tr2 : list Event) (w : World) :
  replay (tr1 ++ tr2) w = replay tr2 (replay tr1 w).
Proof.
  revert w. induction tr1 as [|[p ps|ms] tr1 IH]; intros w; simpl; by rewrite ?IH.
Qed.

(** In a paced log, the world in which the next transport call is issued
    is the one in which the call before it returned, [RATE_DELAY_MS]
    later. *)
Lemma well_paced_replay `{Runtime} (tr pre post : list Event) (c1 e2 : Event)
    (w : World) :
  well_paced tr = true → tr = pre ++ c1 :: e2 :: post → is_call c1 = true →
  replay (pre ++ [c1; e2]) w = wait RATE_DELAY_MS (replay (pre ++ [c1]) w).
Proof.
  intros Hp Heq Hc.
  rewrite (well_paced_after_call _ _ _ _ _ Hp Heq Hc).
  rewrite !replay_app. by destruct c1.
Qed.

(** ** The pagination loop *)

Section Loop.
Context `{Runtime}.
Variable ep : Endpoint.
Variable pages : Z.

(** One iteration, spelled out on states. *)
Lemma fetch_pages_unfold fuel page cursor acc s :
  fetch_pages ep pages (S fuel) page cursor acc s =
  if page <? pages then
    let '(r, w) := transport (ep_path ep) (page_params ep cursor) (world s) in
    let s1 := mkState w (log s ++ [ECall (ep_path ep) (page_params ep cursor)]) in
    match r with
    | Throw e => (Throw e, s1)
    | Ok raw =>
        match get raw (ep_field ep) with
        | Throw e => (Throw e, s1)
        | Ok rawTweets =>
            match parseTweets rawTweets with
            | Throw e => (Throw e, s1)
            | Ok tweets =>
                match get raw "has_next_page", get raw "next_cursor" with
                | Ok has_next_page, Ok next_cursor =>
                    if negb (truthy has_next_page) || negb (truthy next_cursor)
                    then (Ok (acc ++ tweets), s1)
                    else
                      fetch_pages ep pages fuel (page + 1) next_cursor
                        (acc ++ tweets)
                        (if page <? pages - 1
                         then mkState (wait RATE_DELAY_MS w)
                                (log s1 ++ [ESleep RATE_DELAY_MS])
                         else s1)
                | Throw e, _ | _, Throw e => (Throw e, s1)
                end
            end
        end
    end
  else (Ok acc, s).
Proof.
  cbn [fetch_pages]. destruct (page <? pages); [|done].
  unfold bind, apiGet, lift.
  destruct (transport _ _ _) as [[raw|e] w]; [|done].
  destruct (get raw (ep_field ep)) as [rawTweets|e]; [|done].
  destruct (parseTweets rawTweets) as [tweets|e]; [|done].
  destruct (get raw "has_next_page") as [hn|e]; [|done].
  destruct (get raw "next_cursor") as [nc|e]; [|done].
  destruct (negb (truthy hn) || negb (truthy nc)); [done|].
  unfold sleep, ret. by destruct (page <? pages - 1).
Qed.

(** The fuel of [paginate] is never what ends the loop: any fuel that
    covers the pages left gives the same run. *)
Lemma fetch_pages_fuel fuel page cursor acc s :
  (Z.to_nat (pages - page) ≤ fuel)%nat →
  fetch_pages ep pages fuel page cursor acc s =
  fetch_pages ep pages (Z.to_nat (pages - page)) page cursor acc s.
Proof.
  revert page cursor acc s.
  induction fuel as [|fuel IH]; intros page cursor acc s Hfuel.
  - by replace (Z.to_nat (pages - page)) with 0%nat by lia.
  - destruct (Z.ltb_spec page pages) as [Hlt|Hge].
    + replace (Z.to_nat (pages - page))
        with (S (Z.to_nat (pages - (page + 1)))) by lia.
      rewrite !fetch_pages_unfold.
      destruct (page <? pages); [|done].
      destruct (transport _ _ _) as [[raw|e] w]; [|done]. cbn zeta.
      destruct (get raw (ep_field ep)); [|done].
      destruct (parseTweets _); [|done].
      destruct (get raw "has_next_page"); [|done].
      destruct (get raw "next_cursor"); [|done].
      destruct (_ || _); [done|]. apply IH. lia.
    + replace (Z.to_nat (pages - page)) with 0%nat by lia.
      rewrite fetch_pages_unfold.
      by destruct (Z.ltb_spec page pages); [lia|].
Qed.

(** The log of the loop: it only grows; what it adds is paced when the
    loop is entered within the budget and empty otherwise, has at most as
    many calls as there are pages left, and holds loop events only. *)
Lemma fetch_pages_log fuel page cursor acc s :
  (Z.to_nat (pages - page) ≤ fuel)%nat →
  ∃ tr, log (fetch_pages ep pages fuel page cursor acc s).2 = log s ++ tr
        ∧ (if page <? pages then well_paced tr = true else tr = [])
        ∧ (calls tr ≤ Z.to_nat (pages - page))%nat
        ∧ Forall (loop_event ep) tr.
Proof.
  revert page cursor acc s.
  induction fuel as [|fuel IH]; intros page cursor acc s Hfuel.
  - exists []. simpl. rewrite app_nil_r.
    destruct (Z.ltb_spec page pages); [lia|]. repeat split; [|done].
    unfold calls; simpl; lia.
  - rewrite fetch_pages_unfold.
    destruct (Z.ltb_spec page pages) as [Hlt|Hge]; cycle 1.
    { exists []. simpl. rewrite app_nil_r. repeat split; [|done].
      unfold calls; simpl; lia. }
    set (c := ECall (ep_path ep) (page_params ep cursor)).
    assert (Hc : loop_event ep c) by (split; eauto).
    assert (Hone : ∀ (r : Exc (list Tweet)) (w : World), ∃ tr,
      log (r, mkState w (log s ++ [c])).2 = log s ++ tr
      ∧ well_paced tr = true ∧ (calls tr ≤ Z.to_nat (pages - page))%nat
      ∧ Forall (loop_event ep) tr).
    { intros r w. exists [c]. repeat split; [|by constructor].
      unfold calls; simpl; lia. }
    destruct (transport _ _ _) as [[raw|e] w]; [|apply Hone]. cbn zeta.
    destruct (get raw (ep_field ep)); [|apply Hone].
    destruct (parseTweets _); [|apply Hone].
    destruct (get raw "has_next_page"); [|apply Hone].
    destruct (get raw "next_cursor") as [nc|]; [|apply Hone].
    destruct (_ || _); [apply Hone|].
    match goal with |- context [fetch_pages ep pages fuel ?p ?c ?a ?s'] =>
      destruct (IH p c a s') as (tr & Hlog & Hpaced & Hcalls & Hev); [lia|]
    end.
    rewrite Hlog. clear Hlog.
    destruct (Z.ltb_spec page (pages - 1)) as [Hmore|Hlast].
    + destruct (Z.ltb_spec (page + 1) pages); [|lia].
      exists (c :: ESleep RATE_DELAY_MS :: tr). cbn [log].
      rewrite <- !app_assoc. repeat split.
      * by apply well_paced_cons_sleep.
      * change (c :: ESleep RATE_DELAY_MS :: tr)
          with ([c; ESleep RATE_DELAY_MS] ++ tr).
        rewrite calls_app. unfold calls at 1; simpl. lia.
      * constructor; [done|]. by constructor.
    + destruct (Z.ltb_spec (page + 1) pages); [lia|]. subst tr.
      exists [c]. cbn [log]. rewrite app_nil_r. repeat split; [|by constructor].
      unfold calls; simpl; lia.
Qed.

(** The world after the loop is the world of its log: every call and
    every pause of the log happened, in the order of the log, and nothing
    else did. *)
Lemma fetch_pages_replay fuel page cursor acc s :
  ∃ tr, log (fetch_pages ep pages fuel page cursor acc s).2 = log s ++ tr
        ∧ world (fetch_pages ep pages fuel page cursor acc s).2
          = replay tr (world s).
Proof.
  revert page cursor acc s.
  induction fuel as [|fuel IH]; intros page cursor acc s.
  - exists []. simpl. by rewrite app_nil_r.
  - rewrite fetch_pages_unfold.
    destruct (page <? pages); [|exists []; simpl; by rewrite app_nil_r].
    set (c := ECall (ep_path ep) (page_params ep cursor)).
    destruct (transport _ _ _) as [r w] eqn:Ht.
    assert (Hone : ∃ tr, log s ++ [c] = log s ++ tr ∧ w = replay tr (world s)).
    { exists [c]. simpl. by rewrite Ht. }
    destruct r as [raw|e]; [|exact Hone]. cbn zeta.
    destruct (get raw (ep_field ep)); [|exact Hone].
    destruct (parseTweets _); [|exact Hone].
    destruct (get raw "has_next_page"); [|exact Hone].
    destruct (get raw "next_cursor") as [nc|]; [|exact Hone].
    destruct (_ || _); [exact Hone|].
    match goal with |- context [fetch_pages ep pages fuel ?p ?c ?a ?s'] =>
      destruct (IH p c a s') as (tr & Hlog & Hworld)
    end.
    rewrite Hlog, Hworld. clear Hlog Hworld.
    destruct (page <? pages - 1).
    + exists (c :: ESleep RATE_DELAY_MS :: tr). cbn [log world].
      rewrite <- !app_assoc. split; [done|]. simpl. by rewrite Ht.
    + exists (c :: tr). cbn [log world].
      rewrite <- !app_assoc. split; [done|]. simpl. by rewrite Ht.
Qed.

End Loop.

(** ** The phases of [search] *)

Section Search.
Context `{Runtime}.

Lemma Date_now_ok s :
  ∃ t s', Date_now s = (Ok t, s') ∧ log s' = log s.
Proof. unfold Date_now. destruct (clock (world s)) as [t w]. by eauto. Qed.

Lemma parseSinceDate_ok since s :
  ∃ r s', parseSinceDate since s = (Ok r, s') ∧ log s' = log s.
Proof.
  unfold parseSinceDate.
  destruct (match_shorthand None since) as [[num unit]|].
  - unfold bind. destruct (Date_now_ok s) as (t & s' & -> & Hlog).
    unfold ret. by eauto.
  - destruct (_ || _); [|unfold ret; by eauto].
    destruct (Date_parse since); unfold ret; by eauto.
Qed.

Lemma parseSince_ok since s :
  ∃ r s', parseSince since s = (Ok r, s') ∧ log s' = log s.
Proof.
  unfold parseSince, bind.
  destruct (match_shorthand None since) as [[num unit]|].
  - destruct (Date_now_ok s) as (t & s' & -> & Hlog). unfold ret. by eauto.
  - unfold ret. destruct (_ || _); [|by eauto].
    destruct (Date_parse since); by eauto.
Qed.

(** The outgoing query: always computed, and the caller's own query
    when it already has a [since:] operator. *)
Lemma search_fullQuery_ok query opts s :
  ∃ fullQuery s', search_fullQuery query opts s = (Ok fullQuery, s')
    ∧ log s' = log s
    ∧ (includes query "since:" = true → fullQuery = query).
Proof.
  unfold search_fullQuery. destruct (truthy_str (since opts)).
  - unfold bind.
    destruct (parseSince_ok (default "" (since opts)) s) as (r & s' & -> & Hlog).
    destruct r as [op|]; [|unfold ret; by eauto].
    destruct (includes query "since:"); unfold ret; simpl; eauto.
    do 2 eexists. by repeat split.
  - unfold ret. by eauto.
Qed.

(** The client-side filter: always computed; with a truthy [since] that
    yields a cutoff, it keeps the records at or after the cutoff. *)
Lemma search_since_filter_ok opts allTweets s :
  ∃ kept s', search_since_filter opts allTweets s = (Ok kept, s')
    ∧ log s' = log s
    ∧ (truthy_str (since opts) = true →
       ∀ cutoff, (parseSinceDate (default "" (since opts)) s).1 = Ok (Some cutoff) →
         kept = List.filter
                  (λ t, time_ge (getTime (Date_parse (created_at t)))
                                (getTime cutoff))
                  allTweets)
    ∧ (truthy_str (since opts) = false → kept = allTweets).
Proof.
  unfold search_since_filter. destruct (truthy_str (since opts)).
  - unfold bind.
    destruct (parseSinceDate_ok (default "" (since opts)) s)
      as (r & s' & -> & Hlog).
    destruct r as [d|]; unfold ret; do 2 eexists; repeat split; eauto.
    all: simpl; intros; by simplify_eq.
  - unfold ret. do 2 eexists; repeat split; eauto. intros; discriminate.
Qed.

(** [search] by phases: the query, the loop, the filter, the cut. *)
Lemma search_phases query opts s :
  ∃ fullQuery s0,
    search_fullQuery query opts s = (Ok fullQuery, s0) ∧ log s0 = log s ∧
    (includes query "since:" = true → fullQuery = query) ∧
    match paginate (search_endpoint fullQuery (queryType_of (sortOrder opts)))
            (num_or (pages opts) 1) s0 with
    | (Throw e, s1) => search query opts s = (Throw e, s1)
    | (Ok allTweets, s1) =>
        ∃ kept s2,
          search_since_filter opts allTweets s1 = (Ok kept, s2)
          ∧ log s2 = log s1
          ∧ search query opts s = (Ok (search_truncate opts kept), s2)
    end.
Proof.
  destruct (search_fullQuery_ok query opts s) as (fq & s0 & Hfq & Hlog & Hq).
  exists fq, s0. repeat split; try done.
  destruct (paginate _ _ s0) as [[allTweets|e] s1] eqn:Hrun.
  - destruct (search_since_filter_ok opts allTweets s1)
      as (kept & s2 & Hf & Hlog2 & _).
    exists kept, s2. repeat split; try done.
    unfold search, bind. by rewrite Hfq, Hrun, Hf.
  - unfold search, bind. by rewrite Hfq, Hrun.
Qed.

(** The log of [search] is the log of its loop. *)
Lemma search_log query opts s :
  ∃ fullQuery tr,
    log (search query opts s).2 = log s ++ tr
    ∧ (if 0 <? num_or (pages opts) 1 then well_paced tr = true else tr = [])
    ∧ (calls tr ≤ Z.to_nat (num_or (pages opts) 1))%nat
    ∧ Forall (loop_event
                (search_endpoint fullQuery (queryType_of (sortOrder opts)))) tr
    ∧ (includes query "since:" = true → fullQuery = query).
Proof.
  destruct (search_phases query opts s) as (fq & s0 & _ & Hlog0 & Hq & Hrun).
  exists fq.
  destruct (fetch_pages_log (search_endpoint fq (queryType_of (sortOrder opts)))
              (num_or (pages opts) 1) (Z.to_nat (num_or (pages opts) 1)) 0
              (JStr "") [] s0) as (tr & Hlog & Hpaced & Hcalls & Hev); [lia|].
  fold (paginate (search_endpoint fq (queryType_of (sortOrder opts)))
          (num_or (pages opts) 1)) in Hlog.
  exists tr. rewrite Z.sub_0_r in Hcalls. repeat split; try done.
  destruct (paginate _ _ s0) as [[allTweets|e] s1].
  - destruct Hrun as (kept & s2 & _ & Hlog2 & ->). simpl in *. congruence.
  - rewrite Hrun. simpl in *. congruence.
Qed.

End Search.

(** ** The three fetches *)

Section Fetches.
Context `{Runtime}.

Lemma calls_to_le_calls (p : string) (tr : list Event) :
  (calls_to p tr ≤ calls tr)%nat.
Proof.
  unfold calls_to, calls. induction tr as [|[q ps|ms] tr IH]; simpl; [lia| |lia].
  destruct (String.eqb q p); simpl; lia.
Qed.

(** The loop ends with the page at which one of the three stop conditions
    holds: the result is what was accumulated, and the log ends with the
    call for that page. *)
Lemma fetch_pages_stop ep pages fuel page cursor acc s raw w rawTweets tweets
    has_next_page next_cursor :
  page < pages → (Z.to_nat (pages - page) ≤ fuel)%nat →
  transport (ep_path ep) (page_params ep cursor) (world s) = (Ok raw, w) →
  get raw (ep_field ep) = Ok rawTweets →
  parseTweets rawTweets = Ok tweets →
  get raw "has_next_page" = Ok has_next_page →
  get raw "next_cursor" = Ok next_cursor →
  pages ≤ page + 1 ∨ truthy has_next_page = false ∨ truthy next_cursor = false →
  fetch_pages ep pages fuel page cursor acc s =
  (Ok (acc ++ tweets),
   mkState w (log s ++ [ECall (ep_path ep) (page_params ep cursor)])).
Proof.
  intros Hlt Hfuel Ht Hf Hp Hn Hc Hstop.
  rewrite fetch_pages_fuel by done.
  replace (Z.to_nat (pages - page))
    with (S (Z.to_nat (pages - (page + 1)))) by lia.
  rewrite fetch_pages_unfold, Ht. cbn zeta. rewrite Hf, Hp, Hn, Hc.
  destruct (Z.ltb_spec page pages); [|lia].
  destruct (truthy has_next_page) eqn:Hhn; [|done].
  destruct (truthy next_cursor) eqn:Hnc; [|done].
  destruct Hstop as [Hbudget|[?|?]]; [|done..]. simpl.
  replace (Z.to_nat (pages - (page + 1))) with 0%nat by lia.
  by destruct (Z.ltb_spec page (pages - 1)); [lia|].
Qed.

Lemma paginate_log ep pages s :
  ∃ tr, log (paginate ep pages s).2 = log s ++ tr
        ∧ (if 0 <? pages then well_paced tr = true else tr = [])
        ∧ (calls tr ≤ Z.to_nat pages)%nat
        ∧ Forall (loop_event ep) tr.
Proof.
  destruct (fetch_pages_log ep pages (Z.to_nat pages) 0 (JStr "") [] s)
    as (tr & ? & ? & Hcalls & ?); [lia|].
  rewrite Z.sub_0_r in Hcalls. by exists tr.
Qed.

Lemma thread_log tweetId opts s :
  ∃ tr, log (thread tweetId opts s).2 = log s ++ tr
        ∧ (if 0 <? num_or (thread_pages opts) 2
           then well_paced tr = true else tr = [])
        ∧ (calls tr ≤ Z.to_nat (num_or (thread_pages opts) 2))%nat
        ∧ Forall (loop_event (thread_endpoint tweetId)) tr.
Proof. apply paginate_log. Qed.

(** The log of [profile]: the user lookup, then, unless the lookup
    failed, the pause and the timeline loop. *)
Lemma profile_log username opts s :
  let budget := pagesToFetch (num_or (count opts) 20) in
  ∃ tr, log (profile username opts s).2 = log s ++ user_info_call username :: tr
    ∧ (tr = [] ∨ ∃ loop, tr = ESleep RATE_DELAY_MS :: loop
         ∧ (if 0 <? budget then well_paced loop = true else loop = [])
         ∧ (calls loop ≤ Z.to_nat budget)%nat
         ∧ Forall (loop_event (profile_endpoint username opts)) loop).
Proof.
  intros budget. unfold profile, bind at 1, apiGet.
  destruct (transport _ _ _) as [[userRaw|e] w]; [|by exists []; eauto].
  unfold bind at 1, lift at 1.
  destruct (get userRaw "data") as [data|e]; [|by exists []; eauto].
  unfold bind at 1, lift at 1.
  destruct (get userRaw "status") as [status|e]; [|by exists []; eauto].
  destruct (_ || _); [by exists []; eauto|].
  unfold bind at 1, lift at 1.
  destruct (normalize_user data) as [user|e]; [|by exists []; eauto].
  unfold bind at 1, sleep. unfold bind, ret. cbn [world log].
  match goal with |- context [paginate ?e ?p ?s'] =>
    destruct (paginate_log e p s') as (loop & Hlog & Hpaced & Hcalls & Hev);
    destruct (paginate e p s') as [[allTweets|err] s1]
  end.
  all: exists (ESleep RATE_DELAY_MS :: loop); simpl in *; rewrite Hlog.
  all: rewrite <- !app_assoc; split; [done|right; by exists loop].
Qed.

(** The log of the loop and the world after it. *)
Lemma paginate_run ep pages s :
  ∃ tr, log (paginate ep pages s).2 = log s ++ tr
        ∧ world (paginate ep pages s).2 = replay tr (world s)
        ∧ (if 0 <? pages then well_paced tr = true else tr = []).
Proof.
  destruct (paginate_log ep pages s) as (tr & Hlog & Hpaced & _).
  destruct (fetch_pages_replay ep pages (Z.to_nat pages) 0 (JStr "") [] s)
    as (tr' & Hlog' & Hworld).
  fold (paginate ep pages) in Hlog', Hworld.
  rewrite Hlog in Hlog'. apply app_inv_head in Hlog'. subst tr'.
  by exists tr.
Qed.

(** The log of [search] is the log of its loop, and the loop leaves the
    world of that log; without a recency constraint nothing else in
    [search] touches the world. *)
Lemma search_run query opts s :
  ∃ fullQuery s0 tr,
    search_fullQuery query opts s = (Ok fullQuery, s0)
    ∧ log (search query opts s).2 = log s ++ tr
    ∧ world (paginate (search_endpoint fullQuery (queryType_of (sortOrder opts)))
               (num_or (pages opts) 1) s0).2 = replay tr (world s0)
    ∧ (truthy_str (since opts) = false →
       world (search query opts s).2 = replay tr (world s))
    ∧ (if 0 <? num_or (pages opts) 1 then well_paced tr = true else tr = []).
Proof.
  destruct (search_phases query opts s) as (fq & s0 & Hfq & Hlog0 & _ & Hrun).
  destruct (paginate_run (search_endpoint fq (queryType_of (sortOrder opts)))
              (num_or (pages opts) 1) s0) as (tr & Hlog & Hworld & Hpaced).
  exists fq, s0, tr. split; [done|].
  assert (Hs : log (search query opts s).2 = log s ++ tr).
  { destruct (paginate _ _ s0) as [[allTweets|e] s1].
    - destruct Hrun as (kept & s2 & _ & Hlog2 & ->). simpl in *. congruence.
    - rewrite Hrun. simpl in *. congruence. }
  split; [done|]. split; [done|]. split; [|done].
  intros Hno. unfold search_fullQuery in Hfq. rewrite Hno in Hfq.
  unfold ret in Hfq. simplify_eq.
  destruct (paginate _ _ s0) as [[allTweets|e] s1].
  - destruct Hrun as (kept & s2 & Hf & _ & ->).
    unfold search_since_filter in Hf. rewrite Hno in Hf. unfold ret in Hf.
    by simplify_eq.
  - by rewrite Hrun.
Qed.

(** [profile] by outcome of the user lookup. *)
Lemma profile_cases username opts s :
  let s1 w := mkState w (log s ++ [user_info_call username]) in
  match transport "/twitter/user/info" [("userName", JStr username)] (world s) with
  | (Throw e, w) => profile username opts s = (Throw e, s1 w)
  | (Ok userRaw, w) =>
      match get userRaw "data", get userRaw "status" with
      | Throw e, _ | _, Throw e => profile username opts s = (Throw e, s1 w)
      | Ok data, Ok status =>
          if negb (truthy data) || strict_eq_str status "error"
          then profile username opts s =
               (Throw (Error ("User @" +:+ username +:+ " not found")), s1 w)
          else
            match normalize_user data with
            | Throw e => profile username opts s = (Throw e, s1 w)
            | Ok user =>
                let count := num_or (count opts) 20 in
                let s2 := mkState (wait RATE_DELAY_MS w)
                            (log (s1 w) ++ [ESleep RATE_DELAY_MS]) in
                match paginate (profile_endpoint username opts)
                        (pagesToFetch count) s2 with
                | (Throw e, s3) => profile username opts s = (Throw e, s3)
                | (Ok allTweets, s3) =>
                    profile username opts s =
                    (Ok (user, slice0 allTweets count), s3)
                end
            end
      end
  end.
Proof.
  intros s1. subst s1. cbn beta.
  destruct (transport _ _ _) as [[userRaw|e] w] eqn:Ht;
    [|unfold profile, bind, apiGet; by rewrite Ht].
  destruct (get userRaw "data") as [data|e] eqn:Hd;
    [|unfold profile, bind, apiGet, lift; by rewrite Ht, Hd].
  destruct (get userRaw "status") as [status|e] eqn:Hs;
    [|unfold profile, bind, apiGet, lift; by rewrite Ht, Hd, Hs].
  destruct (_ || _) eqn:Hbad;
    [unfold profile, bind, apiGet, lift; by rewrite Ht, Hd, Hs, Hbad|].
  destruct (normalize_user data) as [user|e] eqn:Hu;
    [|unfold profile, bind, apiGet, lift; by rewrite Ht, Hd, Hs, Hbad, Hu].
  cbn zeta. cbn [world log]. unfold user_info_call.
  destruct (paginate _ _ _) as [[allTweets|e] s3] eqn:Hp.
  all: unfold profile, bind, apiGet, lift, sleep, ret.
  all: rewrite Ht, Hd, Hs, Hbad, Hu; cbn [world log]; by rewrite Hp.
Qed.

(** The run of [profile]: a lookup that fails ends it with an error,
    after the one call; otherwise the pause and the timeline loop follow,
    and a loop without a page to fetch leaves the pause at the end. *)
Lemma profile_run username opts s :
  ∃ tr, log (profile username opts s).2 = log s ++ tr
    ∧ world (profile username opts s).2 = replay tr (world s)
    ∧ ((tr = [user_info_call username]
        ∧ ∃ e, (profile username opts s).1 = Throw e)
       ∨ ∃ loop, tr = user_info_call username :: ESleep RATE_DELAY_MS :: loop
           ∧ if 0 <? pagesToFetch (num_or (count opts) 20)
             then well_paced tr = true else loop = []).
Proof.
  pose proof (profile_cases username opts s) as Hcases. cbn zeta in Hcases.
  assert (Hfail : ∀ (e : JSError) w,
    (transport "/twitter/user/info" [("userName", JStr username)] (world s)).2
    = w →
    profile username opts s
    = (Throw e, mkState w (log s ++ [user_info_call username])) →
    ∃ tr, log (profile username opts s).2 = log s ++ tr
      ∧ world (profile username opts s).2 = replay tr (world s)
      ∧ ((tr = [user_info_call username]
          ∧ ∃ e, (profile username opts s).1 = Throw e)
         ∨ ∃ loop, tr = user_info_call username :: ESleep RATE_DELAY_MS :: loop
             ∧ if 0 <? pagesToFetch (num_or (count opts) 20)
               then well_paced tr = true else loop = [])).
  { intros e w Hw ->. exists [user_info_call username].
    split; [done|]. split; [simpl; by rewrite Hw|].
    left. split; [done|]. by exists e. }
  destruct (transport _ _ _) as [r w] eqn:Ht.
  destruct r as [userRaw|e]; [|by eapply Hfail].
  destruct (get userRaw "data") as [data|e]; [|by eapply Hfail].
  destruct (get userRaw "status") as [status|e]; [|by eapply Hfail].
  destruct (_ || _); [by eapply Hfail|].
  destruct (normalize_user data) as [user|e]; [|by eapply Hfail].
  match type of Hcases with context [paginate ?e ?p ?s'] =>
    destruct (paginate_run e p s') as (loop & Hlog & Hworld & Hpaced);
    destruct (paginate e p s') as [[allTweets|err] s1]
  end.
  all: rewrite Hcases.
  all: exists (user_info_call username :: ESleep RATE_DELAY_MS :: loop).
  all: simpl in *; rewrite Hlog, Hworld, Ht, <- !app_assoc.
  all: split; [done|]; split; [done|]; right; exists loop; split; [done|].
  all: destruct (0 <? _); [|done]; by rewrite Hpaced.
Qed.

Lemma profile_timeline_calls username opts s :
  ∃ tr, log (profile username opts s).2 = log s ++ tr
    ∧ (calls_to timeline_path tr
       ≤ Z.to_nat (pagesToFetch (num_or (count opts) 20)))%nat.
Proof.
  destruct (profile_log username opts s) as (tr & Hlog & Htr).
  eexists. split; [exact Hlog|].
  destruct Htr as [->|(loop & -> & _ & Hcalls & _)]; [unfold calls_to; simpl; lia|].
  change (calls_to timeline_path (user_info_call username
            :: ESleep RATE_DELAY_MS :: loop))
    with (calls_to timeline_path loop).
  pose proof (calls_to_le_calls timeline_path loop). lia.
Qed.

End Fetches.

(** ** Termination of the pagination loop *)

(** C1. The pagination loop of every fetch ends with the page at which the
    page budget is used up, or the response's [has_next_page] is falsy, or
    its [next_cursor] is falsy: each condition alone gives the accumulated
    records back with no further call and no pause. The budget bounds the
    transport calls of the loop of [search], [thread] and of the timeline
    loop of [profile]; with a budget of 1 there is exactly one call when
    the response claims [has_next_page] and carries no cursor. *)
Theorem pagination_stop_conditions `{Runtime} :
  (∀ ep pages fuel page cursor acc s raw w rawTweets tweets
     has_next_page next_cursor,
     page < pages → (Z.to_nat (pages - page) ≤ fuel)%nat →
     transport (ep_path ep) (page_params ep cursor) (world s) = (Ok raw, w) →
     get raw (ep_field ep) = Ok rawTweets →
     parseTweets rawTweets = Ok tweets →
     get raw "has_next_page" = Ok has_next_page →
     get raw "next_cursor" = Ok next_cursor →
     pages ≤ page + 1 ∨ truthy has_next_page = false
       ∨ truthy next_cursor = false →
     fetch_pages ep pages fuel page cursor acc s =
     (Ok (acc ++ tweets),
      mkState w (log s ++ [ECall (ep_path ep) (page_params ep cursor)])))
  ∧ (∀ ep pages s, ∃ tr,
       log (paginate ep pages s).2 = log s ++ tr
       ∧ (calls tr ≤ Z.to_nat pages)%nat)
  ∧ (∀ query opts s, ∃ tr,
       log (search query opts s).2 = log s ++ tr
       ∧ (calls tr ≤ Z.to_nat (num_or (pages opts) 1))%nat)
  ∧ (∀ tweetId opts s, ∃ tr,
       log (thread tweetId opts s).2 = log s ++ tr
       ∧ (calls tr ≤ Z.to_nat (num_or (thread_pages opts) 2))%nat)
  ∧ (∀ username opts s, ∃ tr,
       log (profile username opts s).2 = log s ++ tr
       ∧ (calls_to timeline_path tr
          ≤ Z.to_nat (pagesToFetch (num_or (count opts) 20)))%nat)
  ∧ (∀ ep s raw w rawTweets tweets has_next_page next_cursor,
       transport (ep_path ep) (page_params ep (JStr "")) (world s) = (Ok raw, w) →
       get raw (ep_field ep) = Ok rawTweets →
       parseTweets rawTweets = Ok tweets →
       get raw "has_next_page" = Ok has_next_page →
       get raw "next_cursor" = Ok next_cursor →
       truthy has_next_page = true → truthy next_cursor = false →
       paginate ep 1 s =
       (Ok tweets,
        mkState w (log s ++ [ECall (ep_path ep) (page_params ep (JStr ""))]))).
Proof.
  split; [|repeat split].
  - intros. by eapply fetch_pages_stop.
  - intros ep pages s.
    destruct (paginate_log ep pages s) as (tr & ? & _ & ? & _). by exists tr.
  - intros query opts s.
    destruct (search_log query opts s) as (fq & tr & ? & _ & ? & _).
    by exists tr.
  - intros tweetId opts s.
    destruct (thread_log tweetId opts s) as (tr & ? & _ & ? & _). by exists tr.
  - intros. apply profile_timeline_calls.
  - intros ep s raw w rawTweets tweets hn nc Ht Hf Hp Hn Hc _ Hnc.
    unfold paginate.
    erewrite (fetch_pages_stop ep 1 _ 0 (JStr "") [] s); eauto; lia.
Qed.

(** One page that claims more data and carries no cursor, under a budget
    of 1: a single call. *)
Lemma pagination_stop_conditions_witness :
  @paginate Script.scripted (search_endpoint "rocq" "Top") 1
    (Script.start [Script.page [] true JNull; Script.page [] false JNull] 0) =
  (Ok [],
   mkState (W := @World Script.scripted) ([Script.page [] false JNull], 0)
     [ECall "/twitter/tweet/advanced_search"
        [("query", JStr "rocq"); ("queryType", JStr "Top")]]).
Proof.
  apply (proj2 (proj2 (proj2 (proj2 (proj2
           (@pagination_stop_conditions Script.scripted)))))
           (search_endpoint "rocq" "Top")
           (Script.start [Script.page [] true JNull; Script.page [] false JNull] 0)
           (JObj [("tweets", JArr []); ("has_next_page", JBool true);
                  ("next_cursor", JNull)])
           ([Script.page [] false JNull], 0) (JArr []) [] (JBool true) JNull);
    reflexivity.
Defined.

(** ** Pacing of the transport calls *)

(** C5. [RATE_DELAY_MS] is 200. Every pause a fetch logs is a [wait] in
    the world: the world after the loop of [search], [thread] and
    [profile] is the world of its log, in which each transport call of the
    log was made and each pause of the log was waited, in that order. The
    log of a loop that fetches at least one page is paced: it starts and
    ends with a transport call, calls and pauses alternate, every pause
    lasts [RATE_DELAY_MS], so that the next call is issued
    [RATE_DELAY_MS] after the call before it returned, and there is no
    pause after the last page, whichever way the loop ended. A loop with
    no page to fetch logs nothing. For [profile] the user lookup, the
    pause and the timeline loop form one paced log whenever the loop has a
    page to fetch; a lookup that fails is the only event of its run; and
    when the page budget is not positive (a negative [opts.count]) the
    run is the lookup and the pause alone, no page being fetched. *)
Theorem rate_delay_between_pages `{Runtime} :
  RATE_DELAY_MS = 200
  ∧ (∀ tr, well_paced tr = true →
       (∃ c rest, tr = c :: rest ∧ is_call c = true)
       ∧ (∀ pre e1 e2 post, tr = pre ++ e1 :: e2 :: post →
            (is_call e1 = true → e2 = ESleep RATE_DELAY_MS)
            ∧ (is_sleep e1 = true → is_call e2 = true))
       ∧ (∃ c, last tr = Some c ∧ is_call c = true)
       ∧ Forall (λ e, is_sleep e = true → e = ESleep RATE_DELAY_MS) tr
       ∧ (∀ w pre c1 e2 post, tr = pre ++ c1 :: e2 :: post →
            is_call c1 = true →
            replay (pre ++ [c1; e2]) w
            = wait RATE_DELAY_MS (replay (pre ++ [c1]) w)))
  ∧ (∀ ep pages s, ∃ tr,
       log (paginate ep pages s).2 = log s ++ tr
       ∧ world (paginate ep pages s).2 = replay tr (world s)
       ∧ (if 0 <? pages then well_paced tr = true else tr = []))
  ∧ (∀ query opts s, ∃ fullQuery s0 tr,
       search_fullQuery query opts s = (Ok fullQuery, s0)
       ∧ log (search query opts s).2 = log s ++ tr
       ∧ world (paginate
                  (search_endpoint fullQuery (queryType_of (sortOrder opts)))
                  (num_or (pages opts) 1) s0).2 = replay tr (world s0)
       ∧ (truthy_str (since opts) = false →
          world (search query opts s).2 = replay tr (world s))
       ∧ (if 0 <? num_or (pages opts) 1 then well_paced tr = true else tr = []))
  ∧ (∀ tweetId opts s, ∃ tr,
       log (thread tweetId opts s).2 = log s ++ tr
       ∧ world (thread tweetId opts s).2 = replay tr (world s)
       ∧ (if 0 <? num_or (thread_pages opts) 2
          then well_paced tr = true else tr = []))
  ∧ (∀ username opts s, ∃ tr,
       log (profile username opts s).2 = log s ++ tr
       ∧ world (profile username opts s).2 = replay tr (world s)
       ∧ ((tr = [user_info_call username]
           ∧ ∃ e, (profile username opts s).1 = Throw e)
          ∨ ∃ loop,
              tr = user_info_call username :: ESleep RATE_DELAY_MS :: loop
              ∧ if 0 <? pagesToFetch (num_or (count opts) 20)
                then well_paced tr = true else loop = [])).
Proof.
  split; [done|]. split; [|split; [|split; [|split]]].
  - intros tr Htr. split; [by apply well_paced_first|]. split; [|split; [|split]].
    + intros pre e1 e2 post Heq. split; intros He1.
      * by eapply well_paced_after_call.
      * by eapply well_paced_after_sleep.
    + by apply well_paced_last.
    + by apply well_paced_sleeps.
    + intros w pre c1 e2 post Heq Hc. by eapply well_paced_replay.
  - apply paginate_run.
  - apply search_run.
  - intros tweetId opts s. apply paginate_run.
  - apply profile_run.
Qed.

(** A search over three pages, each of which announces a next page: three
    calls and two pauses, none after the third call, and 400 ms have
    passed. *)
Lemma rate_delay_between_pages_witness :
  ∃ tr,
    log (@search Script.scripted "rocq"
           {| maxResults := None; pages := Some 3; sortOrder := None;
              since := None |}
           (Script.start
              [Script.page [] true (JStr "c1"); Script.page [] true (JStr "c2");
               Script.page [] true (JStr "c3")] 1000)).2 = tr
    ∧ calls tr = 3%nat ∧ pauses tr = 2%nat
    ∧ (world (@search Script.scripted "rocq"
                {| maxResults := None; pages := Some 3; sortOrder := None;
                   since := None |}
                (Script.start
                   [Script.page [] true (JStr "c1");
                    Script.page [] true (JStr "c2");
                    Script.page [] true (JStr "c3")] 1000)).2).2 = 1000 + 2 * 200
    ∧ (∃ c rest, tr = c :: rest ∧ is_call c = true)
    ∧ (∀ pre e1 e2 post, tr = pre ++ e1 :: e2 :: post →
         (is_call e1 = true → e2 = ESleep RATE_DELAY_MS)
         ∧ (is_sleep e1 = true → is_call e2 = true))
    ∧ (∃ c, last tr = Some c ∧ is_call c = true)
    ∧ Forall (λ e, is_sleep e = true → e = ESleep RATE_DELAY_MS) tr
    ∧ (∀ w pre c1 e2 post, tr = pre ++ c1 :: e2 :: post →
         is_call c1 = true →
         @replay Script.scripted (pre ++ [c1; e2]) w
         = @wait Script.scripted RATE_DELAY_MS
             (@replay Script.scripted (pre ++ [c1]) w)).
Proof.
  let tr := eval vm_compute in
    (log (@search Script.scripted "rocq"
            {| maxResults := None; pages := Some 3; sortOrder := None;
               since := None |}
            (Script.start
               [Script.page [] true (JStr "c1"); Script.page [] true (JStr "c2");
                Script.page [] true (JStr "c3")] 1000)).2) in
  exists tr; split; [vm_compute; reflexivity|];
  split; [reflexivity|]; split; [reflexivity|];
  split; [vm_compute; reflexivity|];
  apply (proj1 (proj2 (@rate_delay_between_pages Script.scripted)) tr).
  reflexivity.
Defined.

(** ** The result of [search] *)

Section SearchResult.
Context `{Runtime}.

(** A successful [search] went through each phase. *)
Lemma search_result query opts s res s' :
  search query opts s = (Ok res, s') →
  ∃ fullQuery s0 allTweets s1 kept,
    search_fullQuery query opts s = (Ok fullQuery, s0)
    ∧ (includes query "since:" = true → fullQuery = query)
    ∧ paginate (search_endpoint fullQuery (queryType_of (sortOrder opts)))
        (num_or (pages opts) 1) s0 = (Ok allTweets, s1)
    ∧ search_since_filter opts allTweets s1 = (Ok kept, s')
    ∧ res = search_truncate opts kept.
Proof.
  intros Hres.
  destruct (search_phases query opts s) as (fq & s0 & Hfq & _ & Hq & Hrun).
  destruct (paginate _ _ s0) as [[allTweets|e] s1] eqn:Hpag.
  - destruct Hrun as (kept & s2 & Hf & _ & Hs). rewrite Hs in Hres.
    simplify_eq. by exists fq, s0, allTweets, s1, kept.
  - congruence.
Qed.

Lemma Forall_list_filter {A} (f : A → bool) (l : list A) :
  Forall (λ x, f x = true) (List.filter f l).
Proof. apply Forall_forall. intros x Hx. by apply list_elem_of_In, filter_In in Hx as [_ ?]. Qed.

Lemma Forall_slice0 {A} (P : A → Prop) (l : list A) (e : Z) :
  Forall P l → Forall P (slice0 l e).
Proof. apply Forall_take. Qed.

Lemma Forall_search_truncate (P : Tweet → Prop) opts l :
  Forall P l → Forall P (search_truncate opts l).
Proof.
  unfold search_truncate. destruct (truthy_num _); [apply Forall_slice0|done].
Qed.

Lemma list_filter_sublist {A} (f : A → bool) (l : list A) :
  List.filter f l `sublist_of` l.
Proof.
  induction l as [|x l IH]; simpl; [done|].
  destruct (f x); [by apply sublist_skip|by apply sublist_cons].
Qed.

Lemma search_truncate_sublist opts l : search_truncate opts l `sublist_of` l.
Proof.
  unfold search_truncate, slice0. destruct (truthy_num _); [|done].
  apply sublist_take.
Qed.

(** The client-side filter only drops records. *)
Lemma search_since_filter_sublist opts allTweets s kept s' :
  search_since_filter opts allTweets s = (Ok kept, s') →
  kept `sublist_of` allTweets.
Proof.
  intros Hf. unfold search_since_filter in Hf.
  destruct (truthy_str (since opts)).
  - unfold bind in Hf.
    destruct (parseSinceDate_ok (default "" (since opts)) s)
      as ([d|] & s2 & Hd & _); rewrite Hd in Hf; unfold ret in Hf;
      simplify_eq; [apply list_filter_sublist|done].
  - unfold ret in Hf. by simplify_eq.
Qed.

(** With a truthy [since] that yields a cutoff, the result is the
    accumulated records at or after the cutoff, cut to the ceiling. *)
Lemma search_filtered query opts sinceStr s res s' :
  since opts = Some sinceStr → sinceStr ≠ "" →
  search query opts s = (Ok res, s') →
  ∃ fullQuery s0 allTweets s1,
    search_fullQuery query opts s = (Ok fullQuery, s0)
    ∧ (includes query "since:" = true → fullQuery = query)
    ∧ paginate (search_endpoint fullQuery (queryType_of (sortOrder opts)))
        (num_or (pages opts) 1) s0 = (Ok allTweets, s1)
    ∧ ∀ cutoff, (parseSinceDate sinceStr s1).1 = Ok (Some cutoff) →
        res = search_truncate opts (List.filter (at_or_after cutoff) allTweets)
        ∧ Forall (λ t, at_or_after cutoff t = true) res.
Proof.
  intros Hsince Hne Hres.
  destruct (search_result _ _ _ _ _ Hres)
    as (fq & s0 & allTweets & s1 & kept & Hfq & Hq & Hpag & Hf & ->).
  exists fq, s0, allTweets, s1. repeat split; try done.
  all: destruct (search_since_filter_ok opts allTweets s1)
    as (kept' & s2 & Hf' & _ & Hkept & _).
  all: rewrite Hf in Hf'; simplify_eq.
  all: rewrite (Hkept) with (cutoff := cutoff);
    [|rewrite Hsince; simpl; by apply negb_true_iff, String.eqb_neq
     |by rewrite Hsince].
  - done.
  - apply Forall_search_truncate, Forall_list_filter.
Qed.

(** The callback of the client-side filter holds of the records that have
    a valid creation time at or after a valid cutoff, and of no other. *)
Lemma at_or_after_dates cutoff t :
  at_or_after cutoff t = true ↔
  ∃ created limit, getTime (Date_parse (created_at t)) = Some created
                   ∧ getTime cutoff = Some limit ∧ limit ≤ created.
Proof.
  unfold at_or_after, time_ge. split.
  - destruct (getTime (Date_parse (created_at t))) as [created|]; [|done].
    destruct (getTime cutoff) as [limit|]; [|done].
    intros Hle. exists created, limit. repeat split. lia.
  - intros (created & limit & -> & -> & Hle). lia.
Qed.

(** A shorthand always yields a cutoff: the clock reading less the span. *)
Lemma parseSinceDate_shorthand since num unit s :
  match_shorthand None since = Some (num, unit) →
  (parseSinceDate since s).1 =
  Ok (Some (mkDate ((clock (world s)).1 - shorthand_ms num unit))).
Proof.
  intros Hm. unfold parseSinceDate. rewrite Hm.
  unfold bind, Date_now, ret. by destruct (clock (world s)).
Qed.

End SearchResult.

(** C2. When [search] is called with a recency constraint [opts.since]
    from which [parseSinceDate] computes a cutoff, the result is the
    accumulated records filtered on the client by their creation time,
    whatever the transport returned: every returned record has a valid
    [created_at] at or after the cutoff. A shorthand such as [1d] always
    yields a cutoff, computed from the clock after the loop. *)
Theorem search_since_client_filter `{Runtime} query opts sinceStr s res s' :
  since opts = Some sinceStr → sinceStr ≠ "" →
  search query opts s = (Ok res, s') →
  ∃ fullQuery s0 allTweets s1,
    search_fullQuery query opts s = (Ok fullQuery, s0)
    ∧ paginate (search_endpoint fullQuery (queryType_of (sortOrder opts)))
        (num_or (pages opts) 1) s0 = (Ok allTweets, s1)
    ∧ (∀ cutoff, (parseSinceDate sinceStr s1).1 = Ok (Some cutoff) →
         res = search_truncate opts (List.filter (at_or_after cutoff) allTweets)
         ∧ Forall (λ t, ∃ created limit,
                     getTime (Date_parse (created_at t)) = Some created
                     ∧ getTime cutoff = Some limit ∧ limit ≤ created) res)
    ∧ (∀ num unit, match_shorthand None sinceStr = Some (num, unit) →
         (parseSinceDate sinceStr s1).1 =
         Ok (Some (mkDate ((clock (world s1)).1 - shorthand_ms num unit)))).
Proof.
  intros Hsince Hne Hres.
  destruct (search_filtered _ _ _ _ _ _ Hsince Hne Hres)
    as (fq & s0 & allTweets & s1 & Hfq & _ & Hpag & Hcut).
  exists fq, s0, allTweets, s1. split; [done|]. split; [done|]. split.
  - intros cutoff [-> Hall]%Hcut. split; [done|].
    eapply Forall_impl; [exact Hall|].
    intros t Ht. unfold at_or_after, time_ge in Ht.
    destruct (getTime (Date_parse (created_at t))) as [created|]; [|done].
    destruct (getTime cutoff) as [limit|]; [|done].
    exists created, limit. repeat split. lia.
  - intros num unit Hm. by apply parseSinceDate_shorthand.
Qed.

(** The record of nine days before is dropped by the client. *)
Lemma search_since_client_filter_witness :
  ∃ res s',
    @search Script.scripted "rocq" Script.since_opts Script.since_run = (Ok res, s')
    ∧ List.map id res = ["1"]
    ∧ ∃ fullQuery s0 allTweets s1,
        @search_fullQuery Script.scripted "rocq" Script.since_opts Script.since_run
        = (Ok fullQuery, s0)
        ∧ @paginate Script.scripted (search_endpoint fullQuery "Top") 1 s0
          = (Ok allTweets, s1)
        ∧ (∀ cutoff,
             (@parseSinceDate Script.scripted "1d" s1).1 = Ok (Some cutoff) →
             res = search_truncate Script.since_opts
                     (List.filter (@at_or_after Script.scripted cutoff) allTweets)
             ∧ Forall (λ t, ∃ created limit,
                         getTime (Script.iso_parse (created_at t)) = Some created
                         ∧ getTime cutoff = Some limit ∧ limit ≤ created) res)
        ∧ (∀ num unit, match_shorthand None "1d" = Some (num, unit) →
             (@parseSinceDate Script.scripted "1d" s1).1 =
             Ok (Some (mkDate ((@clock Script.scripted (world s1)).1
                               - shorthand_ms num unit)))).
Proof.
  let run := eval vm_compute in
    (@search Script.scripted "rocq" Script.since_opts Script.since_run) in
  match run with
  | (Ok ?res, ?s') =>
      exists res, s'; split; [vm_compute; reflexivity|]; split; [reflexivity|];
      apply (@search_since_client_filter Script.scripted "rocq"
               Script.since_opts "1d" Script.since_run res s')
  end; [reflexivity|discriminate|vm_compute; reflexivity].
Defined.

(** ** The result-count ceiling *)

(** A ceiling of 0 on a page of two records: both come back. *)
Lemma search_maxResults_zero_counterexample :
  let opts := {| maxResults := Some 0; pages := None; sortOrder := None;
                 since := None |} in
  ∃ res s',
    @search Script.scripted "rocq" opts
      (Script.start
         [Script.page [Script.raw_tweet "1" "2024-12-10T07:00:00.000Z";
                       Script.raw_tweet "2" "2024-12-01T07:00:30.000Z"]
            false JNull] 0) = (Ok res, s')
    ∧ maxResults opts = Some 0
    ∧ length res = 2%nat ∧ Z.of_nat (length res) ≠ 0.
Proof.
  intros opts.
  let run := eval vm_compute in
    (@search Script.scripted "rocq" opts
       (Script.start
          [Script.page [Script.raw_tweet "1" "2024-12-10T07:00:00.000Z";
                        Script.raw_tweet "2" "2024-12-01T07:00:30.000Z"]
             false JNull] 0)) in
  match run with
  | (Ok ?res, ?s') => exists res, s'
  end.
  split; [vm_compute; reflexivity|]. by repeat split.
Qed.

(** C4 (amended). What [search] returns is cut from the sequence [kept]
    that is left after accumulation and any recency filtering, never from
    a single page. With a positive ceiling [opts.maxResults] the result is
    the first [maxResults] records of [kept] in their order: exactly
    [maxResults] records when [kept] has at least that many, and all of
    [kept] otherwise, however many records were accumulated before the
    filtering. A ceiling of 0 is read as absent: the result is all of
    [kept]. A negative ceiling [-k] leaves out the last [k] records of
    [kept]. *)
Theorem search_maxResults_prefix `{Runtime} query opts s res s' :
  search query opts s = (Ok res, s') →
  ∃ fullQuery s0 allTweets s1 kept,
    search_fullQuery query opts s = (Ok fullQuery, s0)
    ∧ paginate (search_endpoint fullQuery (queryType_of (sortOrder opts)))
        (num_or (pages opts) 1) s0 = (Ok allTweets, s1)
    ∧ search_since_filter opts allTweets s1 = (Ok kept, s')
    ∧ kept `sublist_of` allTweets
    ∧ (truthy_str (since opts) = false → kept = allTweets)
    ∧ (∀ n, maxResults opts = Some n → 0 < n →
         res = take (Z.to_nat n) kept
         ∧ res `prefix_of` kept
         ∧ ((Z.to_nat n ≤ length kept)%nat → Z.of_nat (length res) = n)
         ∧ ((length kept < Z.to_nat n)%nat → res = kept))
    ∧ (maxResults opts = Some 0 → res = kept)
    ∧ (∀ n, maxResults opts = Some n → n < 0 →
         res = take (length kept - Z.to_nat (- n)) kept).
Proof.
  intros Hres.
  destruct (search_result _ _ _ _ _ Hres)
    as (fq & s0 & allTweets & s1 & kept & Hfq & _ & Hpag & Hf & ->).
  exists fq, s0, allTweets, s1, kept.
  split; [done|]. split; [done|]. split; [done|].
  split; [by eapply search_since_filter_sublist|].
  split.
  { intros Hno.
    destruct (search_since_filter_ok opts allTweets s1)
      as (kept' & s2 & Hf' & _ & _ & Hall).
    rewrite Hf in Hf'. simplify_eq. by apply Hall. }
  split.
  { intros n Hmax Hn.
    assert (Hcut : search_truncate opts kept = take (Z.to_nat n) kept).
    { unfold search_truncate, slice0. rewrite Hmax. simpl.
      destruct (Z.eqb_spec n 0); [lia|]. simpl.
      destruct (Z.ltb_spec n 0); [lia|].
      destruct (Z.min_spec n (Z.of_nat (length kept))) as [[_ ->]|[Hle ->]];
        [done|].
      rewrite Nat2Z.id, firstn_all. symmetry. apply take_ge. lia. }
    rewrite Hcut. split; [done|]. split; [apply prefix_take|]. split.
    + intros Hle. rewrite length_take. lia.
    + intros Hlt. apply take_ge. lia. }
  split.
  - intros Hmax. unfold search_truncate. by rewrite Hmax.
  - intros n Hmax Hn. unfold search_truncate, slice0. rewrite Hmax. simpl.
    destruct (Z.eqb_spec n 0); [lia|]. simpl.
    destruct (Z.ltb_spec n 0); [|lia]. f_equal. lia.
Qed.

(** A search for the last day with a ceiling of 2: two records are
    accumulated, the recency filter keeps one, and that one is returned. *)
Lemma search_maxResults_prefix_witness :
  ∃ res s',
    @search Script.scripted "rocq"
      {| maxResults := Some 2; pages := None; sortOrder := None;
         since := Some "1d" |}
      Script.since_run = (Ok res, s')
    ∧ List.map id res = ["1"]
    ∧ ∃ fullQuery s0 allTweets s1 kept,
        @search_fullQuery Script.scripted "rocq"
          {| maxResults := Some 2; pages := None; sortOrder := None;
             since := Some "1d" |} Script.since_run = (Ok fullQuery, s0)
        ∧ @paginate Script.scripted (search_endpoint fullQuery "Top") 1 s0
          = (Ok allTweets, s1)
        ∧ @search_since_filter Script.scripted
            {| maxResults := Some 2; pages := None; sortOrder := None;
               since := Some "1d" |} allTweets s1 = (Ok kept, s')
        ∧ kept `sublist_of` allTweets
        ∧ (truthy_str (Some "1d") = false → kept = allTweets)
        ∧ (∀ n, Some 2 = Some n → 0 < n →
             res = take (Z.to_nat n) kept
             ∧ res `prefix_of` kept
             ∧ ((Z.to_nat n ≤ length kept)%nat → Z.of_nat (length res) = n)
             ∧ ((length kept < Z.to_nat n)%nat → res = kept))
        ∧ (Some 2 = Some 0 → res = kept)
        ∧ (∀ n, Some 2 = Some n → n < 0 →
             res = take (length kept - Z.to_nat (- n)) kept).
Proof.
  let run := eval vm_compute in
    (@search Script.scripted "rocq"
       {| maxResults := Some 2; pages := None; sortOrder := None;
          since := Some "1d" |}
       Script.since_run) in
  match run with
  | (Ok ?res, ?s') =>
      exists res, s'; split; [vm_compute; reflexivity|]; split; [reflexivity|];
      apply (@search_maxResults_prefix Script.scripted "rocq"
               {| maxResults := Some 2; pages := None; sortOrder := None;
                  since := Some "1d" |} Script.since_run res s')
  end; vm_compute; reflexivity.
Defined.

(** ** Options equal to 0 *)

Lemma well_paced_one_call (tr : list Event) :
  well_paced tr = true → (calls tr ≤ 1)%nat →
  ∃ p ps, tr = [ECall p ps].
Proof.
  destruct tr as [|[p ps|ms] [|[p' ps'|ms'] rest]]; try done; [by eauto|].
  simpl. intros [_ Hrest%well_paced_calls]%andb_true_iff.
  change (ECall p ps :: ESleep ms' :: rest)
    with ([ECall p ps; ESleep ms'] ++ rest).
  rewrite calls_app. unfold calls at 1. simpl. lia.
Qed.

(** C9. An option equal to 0 is read as an absent one. [search] with
    [pages = 0] runs as with no [pages] and makes exactly one transport
    call; [thread] with [pages = 0] runs as with no [pages], on a budget of
    two pages; [profile] with [count = 0] runs as with no [count] and as
    with [count = 20]; [search] with [maxResults = 0] runs as with no
    [maxResults] and returns the whole filtered sequence. *)
Theorem zero_options_read_as_absent `{Runtime} :
  (∀ query m so si s,
     search query {| maxResults := m; pages := Some 0; sortOrder := so;
                     since := si |} s =
     search query {| maxResults := m; pages := None; sortOrder := so;
                     since := si |} s
     ∧ ∃ p ps,
         log (search query {| maxResults := m; pages := Some 0; sortOrder := so;
                              since := si |} s).2 = log s ++ [ECall p ps])
  ∧ (∀ tweetId s,
       thread tweetId {| thread_pages := Some 0 |} s =
       thread tweetId {| thread_pages := None |} s
       ∧ thread tweetId {| thread_pages := Some 0 |} s =
         paginate (thread_endpoint tweetId) 2 s
       ∧ ∃ tr, log (thread tweetId {| thread_pages := Some 0 |} s).2 = log s ++ tr
               ∧ (1 ≤ calls tr ≤ 2)%nat)
  ∧ (∀ username ir s,
       profile username {| count := Some 0; includeReplies := ir |} s =
       profile username {| count := None; includeReplies := ir |} s
       ∧ profile username {| count := Some 0; includeReplies := ir |} s =
         profile username {| count := Some 20; includeReplies := ir |} s)
  ∧ (∀ query p so si s,
       search query {| maxResults := Some 0; pages := p; sortOrder := so;
                       since := si |} s =
       search query {| maxResults := None; pages := p; sortOrder := so;
                       since := si |} s)
  ∧ (∀ allTweets p so si,
       search_truncate {| maxResults := Some 0; pages := p; sortOrder := so;
                          since := si |} allTweets = allTweets).
Proof.
  repeat split; try reflexivity.
  - destruct (search_log query {| maxResults := m; pages := Some 0;
                                  sortOrder := so; since := si |} s)
      as (fq & tr & Hlog & Hpaced & Hcalls & _).
    simpl in Hpaced, Hcalls.
    destruct (well_paced_one_call tr Hpaced) as (p & ps & ->); [lia|].
    by exists p, ps.
  - destruct (thread_log tweetId {| thread_pages := Some 0 |} s)
      as (tr & Hlog & Hpaced & Hcalls & _).
    simpl in Hpaced, Hcalls. exists tr. split; [done|].
    apply well_paced_calls in Hpaced. lia.
Qed.

(** ** A query that already has a [since:] operator *)

(** C10. When [search] is called with a truthy [opts.since] and a query
    that contains [since:], the query sent with every transport call is
    the caller's query, unchanged; and the client-side filter is applied
    all the same: when [parseSinceDate] computes a cutoff, the result is
    the accumulated records that have a valid [created_at] at or after
    the cutoff, in their order and cut to the ceiling, so that every
    returned record has a valid [created_at] at or after the cutoff. A
    shorthand such as [1d] always yields a cutoff, computed from the clock
    after the loop. *)
Theorem search_keeps_existing_since `{Runtime} query opts sinceStr s :
  since opts = Some sinceStr → sinceStr ≠ "" →
  includes query "since:" = true →
  (∃ s0, search_fullQuery query opts s = (Ok query, s0))
  ∧ (∃ tr, log (search query opts s).2 = log s ++ tr
           ∧ Forall (λ e, ∀ p ps, e = ECall p ps →
                       assoc "query" ps = JStr query) tr)
  ∧ (∀ res s', search query opts s = (Ok res, s') →
       ∃ s0 allTweets s1,
         search_fullQuery query opts s = (Ok query, s0)
         ∧ paginate (search_endpoint query (queryType_of (sortOrder opts)))
             (num_or (pages opts) 1) s0 = (Ok allTweets, s1)
         ∧ (∀ cutoff, (parseSinceDate sinceStr s1).1 = Ok (Some cutoff) →
              (∀ keep : Tweet → bool,
                 (∀ t, keep t = true ↔
                       ∃ created limit,
                         getTime (Date_parse (created_at t)) = Some created
                         ∧ getTime cutoff = Some limit ∧ limit ≤ created) →
                 res = search_truncate opts (List.filter keep allTweets))
              ∧ res `sublist_of` allTweets
              ∧ Forall (λ t, ∃ created limit,
                          getTime (Date_parse (created_at t)) = Some created
                          ∧ getTime cutoff = Some limit ∧ limit ≤ created) res)
         ∧ (∀ num unit, match_shorthand None sinceStr = Some (num, unit) →
              (parseSinceDate sinceStr s1).1 =
              Ok (Some (mkDate ((clock (world s1)).1 - shorthand_ms num unit))))).
Proof.
  intros Hsince Hne Hq. split; [|split].
  - destruct (search_fullQuery_ok query opts s) as (fq & s0 & Hfq & _ & Heq).
    rewrite (Heq Hq) in Hfq. by exists s0.
  - destruct (search_log query opts s) as (fq & tr & Hlog & _ & _ & Hev & Heq).
    exists tr. split; [done|]. rewrite (Heq Hq) in Hev.
    eapply Forall_impl; [exact Hev|].
    intros e He p ps ->. by destruct He as (_ & cursor & ->).
  - intros res s' Hres.
    destruct (search_filtered _ _ _ _ _ _ Hsince Hne Hres)
      as (fq & s0 & allTweets & s1 & Hfq & Heq & Hpag & Hcut).
    rewrite (Heq Hq) in Hfq, Hpag. exists s0, allTweets, s1.
    split; [done|]. split; [done|]. split.
    + intros cutoff [-> Hall]%Hcut. split; [|split].
      * intros keep Hkeep. f_equal. apply List.filter_ext. intros t.
        apply eq_true_iff_eq. rewrite Hkeep. apply at_or_after_dates.
      * transitivity (List.filter (at_or_after cutoff) allTweets);
          [apply search_truncate_sublist|apply list_filter_sublist].
      * eapply Forall_impl; [exact Hall|].
        intros t Ht. by apply at_or_after_dates.
    + intros num unit Hm. by apply parseSinceDate_shorthand.
Qed.

(** A search for the last day whose query already has a [since:]
    operator: the query goes out as it is, and the record of nine days
    before is dropped by the client. *)
Lemma search_keeps_existing_since_witness :
  ∃ res s',
    @search Script.scripted "rocq since:2024-12-01_00:00:00_UTC"
      Script.since_opts Script.since_run = (Ok res, s')
    ∧ List.map id res = ["1"]
    ∧ log s' = [ECall "/twitter/tweet/advanced_search"
                  [("query", JStr "rocq since:2024-12-01_00:00:00_UTC");
                   ("queryType", JStr "Top")]]
    ∧ (∃ s0, @search_fullQuery Script.scripted
               "rocq since:2024-12-01_00:00:00_UTC"
               Script.since_opts Script.since_run
             = (Ok "rocq since:2024-12-01_00:00:00_UTC", s0))
    ∧ (∃ tr, log (@search Script.scripted "rocq since:2024-12-01_00:00:00_UTC"
                    Script.since_opts Script.since_run).2
             = log Script.since_run ++ tr
             ∧ Forall (λ e, ∀ p ps, e = ECall p ps →
                         assoc "query" ps
                         = JStr "rocq since:2024-12-01_00:00:00_UTC") tr)
    ∧ ∃ s0 allTweets s1,
        @search_fullQuery Script.scripted "rocq since:2024-12-01_00:00:00_UTC"
          Script.since_opts Script.since_run
        = (Ok "rocq since:2024-12-01_00:00:00_UTC", s0)
        ∧ @paginate Script.scripted
            (search_endpoint "rocq since:2024-12-01_00:00:00_UTC" "Top") 1 s0
          = (Ok allTweets, s1)
        ∧ (∀ cutoff,
             (@parseSinceDate Script.scripted "1d" s1).1 = Ok (Some cutoff) →
             (∀ keep : Tweet → bool,
                (∀ t, keep t = true ↔
                      ∃ created limit,
                        getTime (Script.iso_parse (created_at t)) = Some created
                        ∧ getTime cutoff = Some limit ∧ limit ≤ created) →
                res = search_truncate Script.since_opts
                        (List.filter keep allTweets))
             ∧ res `sublist_of` allTweets
             ∧ Forall (λ t, ∃ created limit,
                         getTime (Script.iso_parse (created_at t)) = Some created
                         ∧ getTime cutoff = Some limit ∧ limit ≤ created) res)
        ∧ (∀ num unit, match_shorthand None "1d" = Some (num, unit) →
             (@parseSinceDate Script.scripted "1d" s1).1 =
             Ok (Some (mkDate ((@clock Script.scripted (world s1)).1
                               - shorthand_ms num unit)))).
Proof.
  pose proof (@search_keeps_existing_since Script.scripted
                "rocq since:2024-12-01_00:00:00_UTC" Script.since_opts "1d"
                Script.since_run eq_refl ltac:(discriminate) eq_refl)
    as (Hquery & Hlog & Hfilter).
  let run := eval vm_compute in
    (@search Script.scripted "rocq since:2024-12-01_00:00:00_UTC"
       Script.since_opts Script.since_run) in
  match run with
  | (Ok ?res, ?s') =>
      exists res, s'; split; [vm_compute; reflexivity|];
      split; [reflexivity|]; split; [reflexivity|];
      split; [exact Hquery|]; split; [exact Hlog|];
      apply (Hfilter res s')
  end.
  vm_compute; reflexivity.
Defined.

(** ** Malformed pages *)

(** C8. A record-list field that is absent or not a list parses to no
    record and does not throw; the page of a response that is not [null]
    then adds nothing to the accumulated records, and the loop goes on or
    ends by the other stop conditions as for any page. *)
Theorem malformed_page_has_no_records `{Runtime} :
  (∀ rawTweets, isArray rawTweets = false → parseTweets rawTweets = Ok [])
  ∧ (∀ fields k, isArray (assoc k fields) = false →
       ∃ v, get (JObj fields) k = Ok v ∧ parseTweets v = Ok [])
  ∧ (∀ ep pages fuel page cursor acc s raw w rawTweets
       has_next_page next_cursor,
       page < pages →
       transport (ep_path ep) (page_params ep cursor) (world s) = (Ok raw, w) →
       get raw (ep_field ep) = Ok rawTweets → isArray rawTweets = false →
       get raw "has_next_page" = Ok has_next_page →
       get raw "next_cursor" = Ok next_cursor →
       let s1 := mkState w (log s ++ [ECall (ep_path ep) (page_params ep cursor)]) in
       fetch_pages ep pages (S fuel) page cursor acc s =
       if negb (truthy has_next_page) || negb (truthy next_cursor)
       then (Ok acc, s1)
       else fetch_pages ep pages fuel (page + 1) next_cursor acc
              (if page <? pages - 1
               then mkState (wait RATE_DELAY_MS w)
                      (log s1 ++ [ESleep RATE_DELAY_MS])
               else s1))
  ∧ (∀ ep pages fuel page cursor acc s raw w rawTweets
       has_next_page next_cursor,
       page < pages → (Z.to_nat (pages - page) ≤ fuel)%nat →
       transport (ep_path ep) (page_params ep cursor) (world s) = (Ok raw, w) →
       get raw (ep_field ep) = Ok rawTweets → isArray rawTweets = false →
       get raw "has_next_page" = Ok has_next_page →
       get raw "next_cursor" = Ok next_cursor →
       pages ≤ page + 1 ∨ truthy has_next_page = false
         ∨ truthy next_cursor = false →
       fetch_pages ep pages fuel page cursor acc s =
       (Ok acc, mkState w (log s ++ [ECall (ep_path ep) (page_params ep cursor)]))).
Proof.
  assert (Hparse : ∀ rawTweets, isArray rawTweets = false →
                                parseTweets rawTweets = Ok []).
  { intros v Hv. unfold parseTweets. rewrite Hv.
    by rewrite orb_true_r. }
  repeat split; [done| | |].
  - intros fields k Hk. exists (assoc k fields). split; [done|by apply Hparse].
  - intros ep pages fuel page cursor acc s raw w rawTweets hn nc
      Hlt Ht Hf Harr Hn Hc s1.
    rewrite fetch_pages_unfold, Ht. cbn zeta.
    rewrite Hf, (Hparse _ Harr), Hn, Hc, app_nil_r.
    by destruct (Z.ltb_spec page pages); [|lia].
  - intros ep pages fuel page cursor acc s raw w rawTweets hn nc
      Hlt Hfuel Ht Hf Harr Hn Hc Hstop.
    rewrite <- (app_nil_r acc) at 2.
    eapply fetch_pages_stop; eauto.
Qed.

(** A response without its [tweets] field that claims a next page and
    carries a cursor, under a budget of 1: no record, one call, no error. *)
Lemma malformed_page_has_no_records_witness :
  @paginate Script.scripted (search_endpoint "rocq" "Top") 1
    (Script.start [Ok (JObj [("has_next_page", JBool true);
                             ("next_cursor", JStr "c1")])] 0) =
  (Ok [],
   mkState (W := @World Script.scripted) ([], 0)
     [ECall "/twitter/tweet/advanced_search"
        [("query", JStr "rocq"); ("queryType", JStr "Top")]]).
Proof.
  apply (proj2 (proj2 (proj2 (@malformed_page_has_no_records Script.scripted)))
           (search_endpoint "rocq" "Top") 1 1%nat 0 (JStr "") []
           (Script.start [Ok (JObj [("has_next_page", JBool true);
                                    ("next_cursor", JStr "c1")])] 0)
           (JObj [("has_next_page", JBool true); ("next_cursor", JStr "c1")])
           ([], 0) JUndefined (JBool true) (JStr "c1"));
    first [reflexivity | lia | by left].
Defined.

(** ** sortBy *)

Section Sorting.
Variable metric : Metric.

Local Abbreviation cmp := (by_metric_desc metric).
Local Abbreviation before := (ranks_before metric).
Local Abbreviation key := (metric_of metric).

Lemma sort_insert_perm x l : sort_insert cmp x l ≡ₚ x :: l.
Proof.
  induction l as [|y l IH]; simpl; [done|].
  destruct (cmp x y <=? 0); [done|]. by rewrite IH, Permutation_swap.
Qed.

Lemma array_sort_perm l : array_sort cmp l ≡ₚ l.
Proof.
  induction l as [|x l IH]; simpl; [done|]. by rewrite sort_insert_perm, IH.
Qed.

Lemma sort_insert_sorted x l :
  StronglySorted before l → StronglySorted before (sort_insert cmp x l).
Proof.
  induction 1 as [|y l Hl IH Hy]; simpl; [by repeat constructor|].
  unfold by_metric_desc at 1. destruct (Z.leb_spec (key y - key x) 0) as [Hle|Hgt].
  - constructor; [by constructor|]. constructor; [unfold ranks_before; lia|].
    eapply Forall_impl; [exact Hy|]. unfold ranks_before. intros; lia.
  - constructor; [done|]. rewrite sort_insert_perm.
    constructor; [unfold ranks_before; lia|done].
Qed.

Lemma array_sort_sorted l : StronglySorted before (array_sort cmp l).
Proof.
  induction l as [|x l IH]; simpl; [constructor|by apply sort_insert_sorted].
Qed.

(** The records of one key value keep their relative order. *)
Lemma sort_insert_stable v x l :
  List.filter (λ a, key a =? v) (sort_insert cmp x l) =
  List.filter (λ a, key a =? v) (x :: l).
Proof.
  induction l as [|y l IH]; [done|]. cbn [sort_insert].
  unfold by_metric_desc at 1. destruct (Z.leb_spec (key y - key x) 0) as [Hle|Hgt]; [done|].
  cbn [List.filter] in *. rewrite IH.
  destruct (Z.eqb_spec (key x) v), (Z.eqb_spec (key y) v); try done. lia.
Qed.

Lemma array_sort_stable v l :
  List.filter (λ a, key a =? v) (array_sort cmp l) =
  List.filter (λ a, key a =? v) l.
Proof.
  induction l as [|x l IH]; [done|]. cbn [array_sort].
  rewrite sort_insert_stable. cbn [List.filter]. by rewrite IH.
Qed.

(** Sorting a sorted array changes nothing. *)
Lemma array_sort_sorted_id l :
  StronglySorted before l → array_sort cmp l = l.
Proof.
  induction 1 as [|x l Hl IH Hx]; [done|]. cbn [array_sort]. rewrite IH.
  destruct Hx as [|y l Hy _]; [done|]. simpl. unfold by_metric_desc.
  by destruct (Z.leb_spec (key y - key x) 0); [|unfold ranks_before in Hy; lia].
Qed.

End Sorting.

(** C6. [sortBy] on every array and every metric: the result is in
    descending order of the metric, holds the same records, and keeps the
    records of equal metric in their relative order; it is a new array, and
    the argument array holds afterwards what it held before; sorting the
    result again changes nothing; the empty and the one-record arrays come
    back as they are. *)
Theorem sortBy_descending_stable (tweets : list Tweet) (metric : Metric) :
  StronglySorted (ranks_before metric) (sortBy tweets metric)
  ∧ sortBy tweets metric ≡ₚ tweets
  ∧ (∀ v, List.filter (λ t, metric_of metric t =? v) (sortBy tweets metric) =
          List.filter (λ t, metric_of metric t =? v) tweets)
  ∧ (∀ (h : gmap ref (list Tweet)) (r : ref), h !! r = Some tweets →
       ∃ r' h', sortBy_ref r metric h = Some (r', h')
                ∧ r' ≠ r ∧ h !! r' = None
                ∧ h' !! r = Some tweets
                ∧ h' !! r' = Some (sortBy tweets metric)
                ∧ ∀ r0, r0 ≠ r' → h' !! r0 = h !! r0)
  ∧ sortBy (sortBy tweets metric) metric = sortBy tweets metric
  ∧ sortBy [] metric = []
  ∧ (∀ t, sortBy [t] metric = [t]).
Proof.
  repeat split.
  - apply array_sort_sorted.
  - apply array_sort_perm.
  - intros v. apply array_sort_stable.
  - intros h r Hr. unfold sortBy_ref. rewrite Hr.
    assert (Hfresh : h !! fresh_ref h = None).
    { apply not_elem_of_dom. unfold fresh_ref. apply is_fresh. }
    assert (Hne : fresh_ref h ≠ r) by (intros Heq; congruence).
    do 2 eexists. split; [done|]. repeat split; try done.
    + by rewrite lookup_alter_ne, lookup_insert_ne.
    + by rewrite lookup_alter_eq, lookup_insert_eq.
    + intros r0 Hr0. by rewrite lookup_alter_ne, lookup_insert_ne.
  - apply array_sort_sorted_id, array_sort_sorted.
Qed.

(** The array of the unit tests, in a heap of its own. *)
Lemma sortBy_descending_stable_witness :
  let t (i : string) (l : Z) :=
    {| id := i; text := ""; author_id := "u1"; username := "testuser";
       name := "Test User"; created_at := "2026-02-25T12:00:00.000Z";
       conversation_id := "1";
       metrics := {| likes := l; retweets := 0; replies := 0; quotes := 0;
                     impressions := 0; bookmarks := 0 |};
       urls := []; mentions := []; hashtags := [];
       tweet_url := "https://x.com/testuser/status/1" |} in
  let tweets := [t "1" 10; t "2" 50; t "3" 5] in
  ∃ r' h', sortBy_ref 1%positive Likes {[ 1%positive := tweets ]} = Some (r', h')
           ∧ r' ≠ 1%positive ∧ ({[ 1%positive := tweets ]} : gmap ref _) !! r' = None
           ∧ h' !! 1%positive = Some tweets
           ∧ h' !! r' = Some (sortBy tweets Likes)
           ∧ ∀ r0, r0 ≠ r' → h' !! r0 = ({[ 1%positive := tweets ]} : gmap ref _) !! r0.
Proof.
  intros t tweets.
  apply (proj1 (proj2 (proj2 (proj2 (sortBy_descending_stable tweets Likes))))).
  apply lookup_singleton_eq.
Defined.

(** ** dedupe *)

Lemma dedupe_from_sublist seen tweets :
  dedupe_from seen tweets `sublist_of` tweets.
Proof.
  revert seen. induction tweets as [|t rest IH]; intros seen; simpl; [done|].
  destruct (decide (id t ∈ seen)); [by apply sublist_cons|by apply sublist_skip].
Qed.

Lemma dedupe_from_not_seen seen tweets t :
  t ∈ dedupe_from seen tweets → id t ∉ seen.
Proof.
  revert seen. induction tweets as [|t' rest IH]; intros seen; simpl.
  - by intros ?%elem_of_nil.
  - destruct (decide (id t' ∈ seen)); [by apply IH|].
    intros [->|Hin%IH]%elem_of_cons; [done|]. set_solver.
Qed.

Lemma dedupe_from_NoDup seen tweets :
  NoDup (id <$> dedupe_from seen tweets).
Proof.
  revert seen. induction tweets as [|t rest IH]; intros seen; simpl.
  - constructor.
  - destruct (decide (id t ∈ seen)); [by apply IH|].
    rewrite fmap_cons. constructor; [|by apply IH].
    intros (t' & Heq & Hin%dedupe_from_not_seen)%list_elem_of_fmap.
    set_solver.
Qed.

Lemma dedupe_from_first seen tweets i :
  i ∉ seen →
  first_with_id i (dedupe_from seen tweets) = first_with_id i tweets.
Proof.
  revert seen. induction tweets as [|t rest IH]; intros seen Hi; simpl; [done|].
  destruct (decide (id t ∈ seen)) as [Hin|Hnin].
  - destruct (String.eqb_spec (id t) i) as [Heq|_]; [|by apply IH].
    by rewrite Heq in Hin.
  - simpl. destruct (String.eqb_spec (id t) i) as [_|Hne]; [done|].
    apply IH. rewrite not_elem_of_union, not_elem_of_singleton.
    split; [congruence|done].
Qed.

Lemma dedupe_from_idem seen tweets :
  dedupe_from seen (dedupe_from seen tweets) = dedupe_from seen tweets.
Proof.
  revert seen. induction tweets as [|t rest IH]; intros seen; simpl; [done|].
  destruct (decide (id t ∈ seen)) as [Hin|Hnin]; [by apply IH|]. simpl.
  destruct (decide (id t ∈ seen)); [done|].
  f_equal. apply IH.
Qed.

(** C7. [dedupe] keeps, for every identifier, the first record that has it
    and drops the later ones; what it keeps is in the order of the input;
    no identifier is kept twice; deduplicating again changes nothing; and
    the result is no longer than the input. *)
Theorem dedupe_first_occurrence (x : list Tweet) :
  (∀ i, first_with_id i (dedupe x) = first_with_id i x)
  ∧ NoDup (id <$> dedupe x)
  ∧ dedupe x `sublist_of` x
  ∧ dedupe (dedupe x) = dedupe x
  ∧ (length (dedupe x) ≤ length x)%nat.
Proof.
  repeat split.
  - intros i. apply dedupe_from_first. set_solver.
  - apply dedupe_from_NoDup.
  - apply dedupe_from_sublist.
  - apply dedupe_from_idem.
  - apply sublist_length, dedupe_from_sublist.
Qed.

(** ** The cache store *)

Section CacheStore.
Import Cache.
Context `{Codec}.

Lemma get_set_fresh query params records t0 t1 ttlMillis store :
  parse (serialize records) = Some records → t1 - t0 ≤ ttlMillis →
  get query params ttlMillis t1 (set query params records t0 store)
  = Some records.
Proof.
  intros Hcodec Hage. unfold get, set. rewrite lookup_insert_eq. simpl.
  by destruct (Z.leb_spec (t1 - t0) ttlMillis); [|lia].
Qed.

End CacheStore.

(** C3. On the store modelled from the spec: [set] followed by [get] for
    the same query and parameters, with a TTL that covers the time between
    the two, gives back the records whenever they survive serialization;
    [get] gives the stored records when the age of the entry is at most
    the TTL; it gives absent when there is no entry, when the payload is
    unreadable and when the age exceeds the TTL. *)
Theorem cache_get_set_contract `{Cache.Codec} query params ttlMillis now
    (store : gmap string (Cache.Entry Cache.Payload)) :
  (∀ records t0, Cache.parse (Cache.serialize records) = Some records →
     now - t0 ≤ ttlMillis →
     Cache.get query params ttlMillis now
       (Cache.set query params records t0 store) = Some records)
  ∧ (∀ e records, store !! Cache.cacheKey query params = Some e →
       now - Cache.mtime e ≤ ttlMillis →
       Cache.parse (Cache.payload e) = Some records →
       Cache.get query params ttlMillis now store = Some records)
  ∧ (store !! Cache.cacheKey query params = None →
       Cache.get query params ttlMillis now store = None)
  ∧ (∀ e, store !! Cache.cacheKey query params = Some e →
       Cache.parse (Cache.payload e) = None →
       Cache.get query params ttlMillis now store = None)
  ∧ (∀ e, store !! Cache.cacheKey query params = Some e →
       ttlMillis < now - Cache.mtime e →
       Cache.get query params ttlMillis now store = None).
Proof.
  repeat split.
  - intros. by apply get_set_fresh.
  - intros e records He Hage Hp. unfold Cache.get. rewrite He.
    by destruct (Z.leb_spec (now - Cache.mtime e) ttlMillis); [|lia].
  - intros Hnone. unfold Cache.get. by rewrite Hnone.
  - intros e He Hp. unfold Cache.get. rewrite He. by destruct (_ <=? _).
  - intros e He Hage. unfold Cache.get. rewrite He.
    by destruct (Z.leb_spec (now - Cache.mtime e) ttlMillis); [lia|].
Qed.

(** The two records of the unit test, written at time 1000 and read ten
    milliseconds later with the default TTL. *)
Lemma cache_get_set_contract_witness :
  let t (i : string) :=
    {| id := i; text := "tweet " +:+ i; author_id := "u1";
       username := "testuser"; name := "Test User";
       created_at := "2026-02-25T12:00:00.000Z"; conversation_id := i;
       metrics := {| likes := 0; retweets := 0; replies := 0; quotes := 0;
                     impressions := 0; bookmarks := 0 |};
       urls := []; mentions := []; hashtags := [];
       tweet_url := "https://x.com/testuser/status/" +:+ i |} in
  @Cache.get Cache.memory_codec "test query" "params=1" Cache.DEFAULT_TTL_MS 1010
    (@Cache.set Cache.memory_codec "test query" "params=1" [t "1"; t "2"] 1000 ∅)
  = Some [t "1"; t "2"].
Proof.
  intros t.
  apply (proj1 (@cache_get_set_contract Cache.memory_codec "test query"
                  "params=1" Cache.DEFAULT_TTL_MS 1010 ∅));
    [reflexivity|unfold Cache.DEFAULT_TTL_MS; lia].
Defined.

(** * Further properties *)

(** ** filterEngagement *)

Lemma passes_engagement_iff opts t :
  passes_engagement opts t = true ↔
  (∀ n, minLikes opts = Some n → n ≠ 0 → n ≤ likes (metrics t))
  ∧ (∀ n, minImpressions opts = Some n → n ≠ 0 → n ≤ impressions (metrics t)).
Proof.
  unfold passes_engagement.
  destruct (minLikes opts) as [a|], (minImpressions opts) as [b|]; simpl.
  all: repeat match goal with
       | |- context [?x =? 0] => destruct (Z.eqb_spec x 0); simpl
       | |- context [?x <? ?y] => destruct (Z.ltb_spec x y); simpl
       end.
  all: split; [intros ?; try discriminate; split; intros; simplify_eq; lia|].
  all: intros [Ha Hb]; try done.
  all: try (specialize (Ha _ eq_refl)); try (specialize (Hb _ eq_refl)); lia.
Qed.

(** X1. [filterEngagement] keeps exactly the records that reach every
    threshold that is neither absent nor 0, in their order; without such a
    threshold it returns its input. *)
Theorem filterEngagement_keeps_passing (tweets : list Tweet)
    (opts : EngagementOpts) :
  filterEngagement tweets opts `sublist_of` tweets
  ∧ (∀ t, t ∈ filterEngagement tweets opts ↔
          t ∈ tweets
          ∧ (∀ n, minLikes opts = Some n → n ≠ 0 → n ≤ likes (metrics t))
          ∧ (∀ n, minImpressions opts = Some n → n ≠ 0 →
                  n ≤ impressions (metrics t)))
  ∧ (truthy_num (minLikes opts) = false →
     truthy_num (minImpressions opts) = false →
     filterEngagement tweets opts = tweets).
Proof.
  unfold filterEngagement. split; [|split].
  - induction tweets as [|t rest IH]; simpl; [done|].
    destruct (passes_engagement opts t);
      [by apply sublist_skip|by apply sublist_cons].
  - intros t. rewrite list_elem_of_In, filter_In, passes_engagement_iff.
    by rewrite list_elem_of_In.
  - intros Hl Hi. induction tweets as [|t rest IH]; simpl; [done|].
    unfold passes_engagement at 1. rewrite Hl, Hi. simpl. by rewrite IH.
Qed.

Lemma filterEngagement_keeps_passing_witness :
  filterEngagement [Samples.tweet "1" 5 50; Samples.tweet "2" 15 200]
    {| minLikes := Some 0; minImpressions := None |} =
  [Samples.tweet "1" 5 50; Samples.tweet "2" 15 200].
Proof.
  apply (proj2 (proj2 (filterEngagement_keeps_passing
                         [Samples.tweet "1" 5 50; Samples.tweet "2" 15 200]
                         {| minLikes := Some 0; minImpressions := None |})));
    reflexivity.
Defined.

Lemma list_filter_filter {A} (f g : A → bool) (l : list A) :
  List.filter g (List.filter f l) = List.filter (λ x, f x && g x) l.
Proof.
  induction l as [|x l IH]; simpl; [done|].
  destruct (f x); simpl; [|done]. destruct (g x); by rewrite IH.
Qed.

Lemma passes_engagement_both a b t :
  passes_engagement {| minLikes := a; minImpressions := b |} t =
  passes_engagement {| minLikes := a; minImpressions := None |} t
  && passes_engagement {| minLikes := None; minImpressions := b |} t.
Proof.
  unfold passes_engagement. simpl.
  by destruct (truthy_num a && (likes (metrics t) <? default 0 a)).
Qed.

(** X2. The two thresholds act independently: filtering on both is
    filtering on one and then on the other, in either order, and filtering
    twice with the same thresholds is filtering once. *)
Theorem filterEngagement_composes (tweets : list Tweet) (a b : option Z) :
  filterEngagement tweets {| minLikes := a; minImpressions := b |} =
  filterEngagement
    (filterEngagement tweets {| minLikes := a; minImpressions := None |})
    {| minLikes := None; minImpressions := b |}
  ∧ filterEngagement tweets {| minLikes := a; minImpressions := b |} =
    filterEngagement
      (filterEngagement tweets {| minLikes := None; minImpressions := b |})
      {| minLikes := a; minImpressions := None |}
  ∧ filterEngagement
      (filterEngagement tweets {| minLikes := a; minImpressions := b |})
      {| minLikes := a; minImpressions := b |} =
    filterEngagement tweets {| minLikes := a; minImpressions := b |}.
Proof.
  unfold filterEngagement. rewrite !list_filter_filter. split; [|split].
  - apply filter_ext. intros t. apply passes_engagement_both.
  - apply filter_ext. intros t. rewrite passes_engagement_both.
    apply andb_comm.
  - apply filter_ext. intros t. by destruct (passes_engagement _ t).
Qed.

(** ** Transforms composed *)

Section SortFilter.
Variable metric : Metric.
Variable keep : Tweet → bool.

Local Abbreviation cmp := (by_metric_desc metric).
Local Abbreviation before := (ranks_before metric).

Lemma sort_insert_front x l :
  Forall (before x) l → sort_insert cmp x l = x :: l.
Proof.
  destruct 1 as [|y l Hy _]; [done|]. simpl. unfold by_metric_desc.
  by destruct (Z.leb_spec (metric_of metric y - metric_of metric x) 0);
    [|unfold ranks_before in Hy; lia].
Qed.

Lemma filter_sort_insert x l :
  StronglySorted before l →
  List.filter keep (sort_insert cmp x l) =
  if keep x then sort_insert cmp x (List.filter keep l)
  else List.filter keep l.
Proof.
  induction 1 as [|y l Hl IH Hy]; simpl; [done|].
  unfold by_metric_desc at 1.
  destruct (Z.leb_spec (metric_of metric y - metric_of metric x) 0) as [Hle|Hgt].
  - assert (Hall : Forall (before x) (y :: l)).
    { constructor; [unfold ranks_before; lia|].
      eapply Forall_impl; [exact Hy|]. unfold ranks_before. intros; lia. }
    assert (Hkept : Forall (before x) (List.filter keep (y :: l))).
    { apply Forall_forall. intros z [Hz _]%list_elem_of_In%filter_In.
      by apply (proj1 (Forall_forall _ _) Hall), list_elem_of_In. }
    cbn [List.filter] in *. destruct (keep x); [|done].
    by rewrite sort_insert_front.
  - cbn [List.filter]. rewrite IH.
    destruct (keep y), (keep x); try done.
    cbn [sort_insert]. unfold by_metric_desc at 2.
    by destruct (Z.leb_spec (metric_of metric y - metric_of metric x) 0); [lia|].
Qed.

Lemma filter_array_sort l :
  List.filter keep (array_sort cmp l) = array_sort cmp (List.filter keep l).
Proof.
  induction l as [|x l IH]; simpl; [done|].
  rewrite filter_sort_insert by apply array_sort_sorted.
  rewrite IH. by destruct (keep x).
Qed.


End SortFilter.


(** X3. Filtering by engagement and sorting commute: [sortBy] of the
    filtered records is the filtered [sortBy] of all the records. *)
Theorem filterEngagement_sortBy_commute (tweets : list Tweet)
    (opts : EngagementOpts) (metric : Metric) :
  filterEngagement (sortBy tweets metric) opts =
  sortBy (filterEngagement tweets opts) metric.
Proof. apply filter_array_sort. Qed.



Lemma dedupe_from_NoDup_id seen tweets :
  NoDup (id <$> tweets) → (∀ t, t ∈ tweets → id t ∉ seen) →
  dedupe_from seen tweets = tweets.
Proof.
  revert seen. induction tweets as [|x rest IH]; intros seen Hnd Hseen; [done|].
  simpl. rewrite fmap_cons in Hnd. apply NoDup_cons in Hnd as [Hx Hnd].
  destruct (decide (id x ∈ seen)) as [Hin|_].
  - exfalso. apply (Hseen x); [by left|done].
  - f_equal. apply IH; [done|]. intros t Ht.
    rewrite not_elem_of_union, not_elem_of_singleton. split.
    + intros Heq. apply Hx. rewrite <- Heq. by apply list_elem_of_fmap_2.
    + apply Hseen. by right.
Qed.

(** X5. [dedupe] returns its input unchanged exactly when no identifier
    occurs twice in it. *)
Theorem dedupe_fixed_point (x : list Tweet) :
  dedupe x = x ↔ NoDup (id <$> x).
Proof.
  split.
  - intros <-. apply dedupe_from_NoDup.
  - intros Hnd. apply dedupe_from_NoDup_id; [done|]. set_solver.
Qed.

(** X6. [dedupe] loses no identifier and adds none: an identifier occurs
    in the result exactly when it occurs in the input. *)
Theorem dedupe_same_identifiers (x : list Tweet) (i : string) :
  i ∈ id <$> dedupe x ↔ i ∈ id <$> x.
Proof.
  split.
  - intros (t & -> & Ht)%list_elem_of_fmap. apply list_elem_of_fmap_2.
    eapply elem_of_sublist; [exact Ht|apply dedupe_from_sublist].
  - intros (t & -> & Ht)%list_elem_of_fmap.
    destruct (first_with_id (id t) x) as [t0|] eqn:Hfirst.
    + pose proof Hfirst as Hd.
      rewrite <- (dedupe_from_first ∅ x (id t)) in Hd by set_solver.
      apply find_some in Hd as [Hin Heq%String.eqb_eq].
      rewrite <- Heq. by apply list_elem_of_fmap_2, list_elem_of_In.
    + exfalso. apply list_elem_of_In in Ht.
      pose proof (find_none _ _ Hfirst t Ht) as Hne. simpl in Hne.
      by rewrite String.eqb_refl in Hne.
Qed.

(** ** The requests and pauses of a loop *)

Section LoopRequests.
Context `{Runtime}.
Variable ep : Endpoint.
Variable pages : Z.

(** The call that enters the loop carries the cursor it was entered
    with; every later call carries the truthy cursor of a response. *)
Lemma fetch_pages_requests fuel page cursor acc s :
  ∃ tr, log (fetch_pages ep pages fuel page cursor acc s).2 = log s ++ tr
        ∧ (tr = []
           ∨ ∃ rest, tr = ECall (ep_path ep) (page_params ep cursor) :: rest
                     ∧ Forall (follow_up_event ep) rest).
Proof.
  revert page cursor acc s.
  induction fuel as [|fuel IH]; intros page cursor acc s.
  - exists []. simpl. rewrite app_nil_r. by split; [|left].
  - rewrite fetch_pages_unfold.
    destruct (page <? pages); [|exists []; simpl; rewrite app_nil_r; by split; [|left]].
    set (c := ECall (ep_path ep) (page_params ep cursor)).
    assert (Hone : ∀ (r : Exc (list Tweet)) (w : World), ∃ tr,
      log (r, mkState w (log s ++ [c])).2 = log s ++ tr
      ∧ (tr = [] ∨ ∃ rest, tr = c :: rest ∧ Forall (follow_up_event ep) rest)).
    { intros r w. exists [c]. split; [done|]. right. by exists []. }
    destruct (transport _ _ _) as [[raw|e] w]; [|apply Hone]. cbn zeta.
    destruct (get raw (ep_field ep)); [|apply Hone].
    destruct (parseTweets _); [|apply Hone].
    destruct (get raw "has_next_page") as [hn|]; [|apply Hone].
    destruct (get raw "next_cursor") as [nc|]; [|apply Hone].
    destruct (truthy hn) eqn:Hhn; [|apply Hone].
    destruct (truthy nc) eqn:Hnc; [|apply Hone]. simpl.
    match goal with |- context [fetch_pages ep pages fuel ?p ?c ?a ?s'] =>
      destruct (IH p c a s') as (tr & Hlog & Htr)
    end.
    rewrite Hlog. clear Hlog.
    assert (Hnext : tr = [] ∨ Forall (follow_up_event ep) tr).
    { destruct Htr as [->|(rest & -> & Hrest)]; [by left|right].
      constructor; [|done]. split; [done|]. exists nc. split; [done|].
      unfold page_params. by rewrite Hnc. }
    assert (Hall : Forall (follow_up_event ep) tr)
      by (destruct Hnext as [->|?]; [constructor|done]).
    destruct (page <? pages - 1); cbn [log].
    + exists (c :: ESleep RATE_DELAY_MS :: tr). rewrite <- !app_assoc.
      split; [done|]. right. eexists. split; [done|]. by constructor.
    + exists (c :: tr). rewrite <- !app_assoc.
      split; [done|]. right. by eexists.
Qed.

Lemma well_paced_pauses (tr : list Event) :
  well_paced tr = true → calls tr = S (pauses tr).
Proof.
  revert tr. apply well_paced_induction.
  - done.
  - intros p ps rest _ IH. unfold calls, pauses in *. simpl. lia.
Qed.

End LoopRequests.

(** X7. In every loop the first request has the endpoint's parameters and
    no cursor, and every later request has them followed by a truthy
    cursor: no request is sent with an empty or missing cursor after the
    first page. *)
Theorem paginate_cursor_discipline `{Runtime} (ep : Endpoint) (pages : Z) s :
  ∃ tr, log (paginate ep pages s).2 = log s ++ tr
        ∧ (tr = []
           ∨ ∃ rest, tr = ECall (ep_path ep) (ep_params ep) :: rest
                     ∧ Forall (follow_up_event ep) rest).
Proof.
  destruct (fetch_pages_requests ep pages (Z.to_nat pages) 0 (JStr "") [] s)
    as (tr & Hlog & Htr).
  exists tr. split; [done|]. unfold page_params in Htr. simpl in Htr.
  by rewrite app_nil_r in Htr.
Qed.

(** X8. A loop pauses once less than it calls the transport, so at most
    once less than its budget, and a loop that makes no call makes no
    pause; so do [search] and [thread]. *)
Theorem pauses_one_less_than_calls `{Runtime} :
  (∀ ep pages s, ∃ tr,
     log (paginate ep pages s).2 = log s ++ tr
     ∧ pauses tr = (calls tr - 1)%nat
     ∧ (pauses tr ≤ Z.to_nat (pages - 1))%nat)
  ∧ (∀ query opts s, ∃ tr,
       log (search query opts s).2 = log s ++ tr
       ∧ pauses tr = (calls tr - 1)%nat
       ∧ (pauses tr ≤ Z.to_nat (num_or (pages opts) 1 - 1))%nat)
  ∧ (∀ tweetId opts s, ∃ tr,
       log (thread tweetId opts s).2 = log s ++ tr
       ∧ pauses tr = (calls tr - 1)%nat
       ∧ (pauses tr ≤ Z.to_nat (num_or (thread_pages opts) 2 - 1))%nat).
Proof.
  assert (Hcount : ∀ budget tr,
    (if 0 <? budget then well_paced tr = true else tr = []) →
    (calls tr ≤ Z.to_nat budget)%nat →
    pauses tr = (calls tr - 1)%nat ∧ (pauses tr ≤ Z.to_nat (budget - 1))%nat).
  { intros budget tr Hp Hc. destruct (0 <? budget).
    - apply well_paced_pauses in Hp. lia.
    - subst tr. unfold pauses, calls. simpl. lia. }
  split; [|split].
  - intros ep pages s.
    destruct (paginate_log ep pages s) as (tr & ? & ? & ? & _).
    exists tr. split; [done|]. by apply Hcount.
  - intros query opts s.
    destruct (search_log query opts s) as (fq & tr & ? & ? & ? & _).
    exists tr. split; [done|]. by apply Hcount.
  - intros tweetId opts s.
    destruct (thread_log tweetId opts s) as (tr & ? & ? & ? & _).
    exists tr. split; [done|]. by apply Hcount.
Qed.

(** ** profile *)

(** X9. [profile] fails with the message that the user was not found when
    the lookup answers without data or with the status [error]; then the
    lookup is its only transport call and it does not pause. A [profile]
    that returns has had a lookup with truthy data, another status, and a
    user object that could be normalized. *)
Theorem profile_user_not_found `{Runtime} username opts s :
  (∀ userRaw w data status,
     transport "/twitter/user/info" [("userName", JStr username)] (world s)
     = (Ok userRaw, w) →
     get userRaw "data" = Ok data → get userRaw "status" = Ok status →
     truthy data = false ∨ status = JStr "error" →
     profile username opts s =
     (Throw (Error ("User @" +:+ username +:+ " not found")),
      mkState w (log s ++ [user_info_call username])))
  ∧ (∀ user tweets s',
       profile username opts s = (Ok (user, tweets), s') →
       ∃ userRaw w data status,
         transport "/twitter/user/info" [("userName", JStr username)] (world s)
         = (Ok userRaw, w)
         ∧ get userRaw "data" = Ok data ∧ truthy data = true
         ∧ get userRaw "status" = Ok status ∧ status ≠ JStr "error"
         ∧ normalize_user data = Ok user).
Proof.
  pose proof (profile_cases username opts s) as Hcases. cbn zeta in Hcases.
  split.
  - intros userRaw w data status Ht Hd Hs Hbad.
    rewrite Ht, Hd, Hs in Hcases.
    destruct Hbad as [Hb|Hb]; rewrite Hb in Hcases; simpl in Hcases; [done|].
    by rewrite orb_true_r in Hcases.
  - intros user tweets s' Hok.
    destruct (transport _ _ _) as [[userRaw|e] w]; [|congruence].
    destruct (get userRaw "data") as [data|e] eqn:Hd; [|congruence].
    destruct (get userRaw "status") as [status|e] eqn:Hs; [|congruence].
    destruct (truthy data) eqn:Hdata; simpl in Hcases; [|congruence].
    destruct (strict_eq_str status "error") eqn:Hstatus; [congruence|].
    destruct (normalize_user data) as [user'|e] eqn:Hu; [|congruence].
    destruct (paginate _ _ _) as [[allTweets|e] s3]; [|congruence].
    rewrite Hcases in Hok. simplify_eq.
    assert (status ≠ JStr "error")
      by (intros Heq; rewrite Heq in Hstatus; by vm_compute in Hstatus).
    exists userRaw, w, data, status. by split_and!.
Qed.

Lemma profile_user_not_found_witness :
  @profile Script.scripted "nobody" {| count := None; includeReplies := None |}
    (Script.start [Ok (JObj [("status", JStr "error");
                             ("data", JObj [("userName", JStr "x")])])] 0) =
  (Throw (Error "User @nobody not found"),
   mkState (W := @World Script.scripted) ([], 0) [user_info_call "nobody"]).
Proof.
  apply (proj1 (@profile_user_not_found Script.scripted "nobody"
                  {| count := None; includeReplies := None |}
                  (Script.start [Ok (JObj [("status", JStr "error");
                                           ("data", JObj [("userName", JStr "x")])])]
                     0))
           (JObj [("status", JStr "error"); ("data", JObj [("userName", JStr "x")])])
           ([], 0) (JObj [("userName", JStr "x")]) (JStr "error"));
    first [reflexivity | by right].
Defined.

(** X10. The page budget of [profile] is the least number of pages of 20
    that holds [count] records, and a [profile] that returns with a
    positive [count] returns at most [count] records, the first ones that
    its loop accumulated. *)
Theorem profile_count_bounds `{Runtime} username opts s :
  (∀ c, 20 * (pagesToFetch c - 1) < c ≤ 20 * pagesToFetch c)
  ∧ (∀ user tweets s',
       profile username opts s = (Ok (user, tweets), s') →
       0 < num_or (count opts) 20 →
       ∃ allTweets s2,
         paginate (profile_endpoint username opts)
           (pagesToFetch (num_or (count opts) 20)) s2 = (Ok allTweets, s')
         ∧ tweets = take (Z.to_nat (num_or (count opts) 20)) allTweets
         ∧ Z.of_nat (length tweets) ≤ num_or (count opts) 20).
Proof.
  split.
  - intros c. unfold pagesToFetch.
    pose proof (Z.div_mod (- c) 20) as Hdiv.
    pose proof (Z.mod_pos_bound (- c) 20). lia.
  - intros user tweets s' Hok Hpos.
    pose proof (profile_cases username opts s) as Hcases. cbn zeta in Hcases.
    destruct (transport _ _ _) as [[userRaw|e] w]; [|congruence].
    destruct (get userRaw "data") as [data|e]; [|congruence].
    destruct (get userRaw "status") as [status|e]; [|congruence].
    destruct (_ || _); [congruence|].
    destruct (normalize_user data) as [user'|e]; [|congruence].
    destruct (paginate _ _ _) as [[allTweets|e] s3] eqn:Hpag; [|congruence].
    rewrite Hcases in Hok. simplify_eq.
    eexists allTweets, _. split; [exact Hpag|].
    assert (Hcut : slice0 allTweets (num_or (count opts) 20)
                   = take (Z.to_nat (num_or (count opts) 20)) allTweets).
    { unfold slice0. destruct (Z.ltb_spec (num_or (count opts) 20) 0); [lia|].
      destruct (Z.min_spec (num_or (count opts) 20)
                  (Z.of_nat (length allTweets))) as [[_ ->]|[Hle ->]]; [done|].
      rewrite Nat2Z.id, firstn_all. symmetry. apply take_ge. lia. }
    rewrite Hcut. split; [done|]. rewrite length_take. lia.
Qed.

Lemma profile_count_bounds_witness :
  ∃ user tweets s',
    @profile Script.scripted "bob" {| count := Some 1; includeReplies := None |}
      (Script.start
         [Ok (JObj [("data", JObj [("userName", JStr "bob")])]);
          Script.page [Script.raw_tweet "1" ""; Script.raw_tweet "2" ""]
            true (JStr "c1")] 0) = (Ok (user, tweets), s')
    ∧ Z.of_nat (length tweets) ≤ 1.
Proof.
  let run := eval vm_compute in
    (@profile Script.scripted "bob" {| count := Some 1; includeReplies := None |}
       (Script.start
          [Ok (JObj [("data", JObj [("userName", JStr "bob")])]);
           Script.page [Script.raw_tweet "1" ""; Script.raw_tweet "2" ""]
             true (JStr "c1")] 0)) in
  match run with
  | (Ok (?user, ?tweets), ?s') =>
      exists user, tweets, s'; split; [vm_compute; reflexivity|];
      destruct (proj2 (@profile_count_bounds Script.scripted "bob"
                         {| count := Some 1; includeReplies := None |}
                         (Script.start
                            [Ok (JObj [("data", JObj [("userName", JStr "bob")])]);
                             Script.page [Script.raw_tweet "1" ""; Script.raw_tweet "2" ""]
                               true (JStr "c1")] 0))
                 user tweets s') as (? & ? & _ & _ & Hlen)
  end; [vm_compute; reflexivity|reflexivity|exact Hlen].
Defined.

(** ** The two readings of [since] *)

(** X11. [parseSince] and [parseSinceDate] read a [since] value alike: run
    from the same state they read the clock alike, and [parseSince] gives
    the operator of exactly the date that [parseSinceDate] gives, and no
    operator when it gives none. *)
Theorem parseSince_agrees_with_parseSinceDate `{Runtime} since s :
  ∃ date s', parseSinceDate since s = (Ok date, s')
             ∧ parseSince since s = (Ok (since_operator <$> date), s').
Proof.
  unfold parseSinceDate, parseSince, bind.
  destruct (match_shorthand None since) as [[num unit]|].
  - unfold Date_now, ret. destruct (clock (world s)) as [now w].
    by do 2 eexists.
  - unfold ret. destruct (includes since "T" || includes since "-").
    + destruct (Date_parse since); by do 2 eexists.
    + by do 2 eexists.
Qed.

Lemma append_nil_l (s : string) : "" +:+ s = s.
Proof. reflexivity. Qed.

Lemma append_String (c : ascii) (a b : string) :
  String c a +:+ b = String c (a +:+ b).
Proof. reflexivity. Qed.

Section Shorthand.

Local Abbreviation unit_letter c := (c = "m" ∨ c = "h" ∨ c = "d")%char.

Lemma unit_letter_test c :
  (Ascii.eqb c "m" || Ascii.eqb c "h" || Ascii.eqb c "d")%char = true
  ↔ unit_letter c.
Proof.
  rewrite !orb_true_iff, !Ascii.eqb_eq. tauto.
Qed.

Lemma match_shorthand_from acc s num unit :
  match_shorthand (Some acc) s = Some (num, unit) ↔
  ∃ digits, s = digits +:+ String unit EmptyString
            ∧ Script.decimal_from acc digits = Some num ∧ unit_letter unit.
Proof.
  revert acc. induction s as [|c s IH]; intros acc.
  - simpl. split; [done|]. by intros ([|? ?] & ? & _).
  - destruct s as [|c' s].
    + simpl. split.
      * destruct (_ || _)%char eqn:Hu; [|done]. intros [= <- <-].
        exists EmptyString. by rewrite <- unit_letter_test.
      * intros (digits & Heq & Hd & Hu).
        destruct digits as [|d [|? ?]];
          rewrite ?append_nil_l, ?append_String in Heq; cbn in Hd; simplify_eq.
        by rewrite (proj2 (unit_letter_test unit) Hu).
    + change (match_shorthand (Some acc) (String c (String c' s)))
        with (if is_digit c
              then match_shorthand
                     (Some (10 * default 0 (Some acc) + digit_value c))
                     (String c' s)
              else None).
      simpl default. split.
      * destruct (is_digit c) eqn:Hc; [|done].
        intros (digits & -> & Hd & Hu)%IH.
        exists (String c digits). simpl. by rewrite Hc.
      * intros (digits & Heq & Hd & Hu).
        destruct digits as [|d digits];
          rewrite ?append_nil_l, ?append_String in Heq; cbn in Hd;
          [by simplify_eq|].
        injection Heq as <- Heq.
        destruct (is_digit c); [|done]. apply IH. by exists digits.
Qed.

End Shorthand.

(** X12. A [since] value is read as a shorthand exactly when it is one or
    more decimal digits followed by one of the letters m, h and d; the
    number is then the decimal value of the digits. *)
Theorem match_shorthand_shape (s : string) (num : Z) (unit : ascii) :
  match_shorthand None s = Some (num, unit) ↔ shorthand_shape s num unit.
Proof.
  unfold shorthand_shape. destruct s as [|c [|c' s]].
  - split; [done|]. by intros ([|? ?] & ? & _).
  - split; [done|]. intros (digits & Heq & Hd & _).
    by destruct digits as [|? [|? ?]];
      rewrite ?append_nil_l, ?append_String in Heq; cbn in Hd; simplify_eq.
  - change (match_shorthand None (String c (String c' s)))
      with (if is_digit c
            then match_shorthand (Some (10 * default 0 None + digit_value c))
                   (String c' s)
            else None).
    split.
    + destruct (is_digit c) eqn:Hc; [|done].
      intros (digits & -> & Hd & Hu)%match_shorthand_from.
      exists (String c digits). split; [done|]. split; [|done].
      unfold Script.decimal. simpl. by rewrite Hc.
    + intros (digits & Heq & Hd & Hu).
      destruct digits as [|d digits]; [done|].
      rewrite append_String in Heq. injection Heq as <- Heq.
      unfold Script.decimal in Hd. cbn in Hd.
      destruct (is_digit c); [|done].
      apply match_shorthand_from. by exists digits.
Qed.

(** ** What [search] returns *)

(** X13. Whatever its options, a [search] that returns gives records that
    its loop accumulated, each at most as often and in the order in which
    the pages brought them. *)
Theorem search_returns_accumulated `{Runtime} query opts s res s' :
  search query opts s = (Ok res, s') →
  ∃ fullQuery s0 allTweets s1,
    search_fullQuery query opts s = (Ok fullQuery, s0)
    ∧ paginate (search_endpoint fullQuery (queryType_of (sortOrder opts)))
        (num_or (pages opts) 1) s0 = (Ok allTweets, s1)
    ∧ res `sublist_of` allTweets.
Proof.
  intros Hres.
  destruct (search_result _ _ _ _ _ Hres)
    as (fq & s0 & allTweets & s1 & kept & Hfq & _ & Hpag & Hf & ->).
  exists fq, s0, allTweets, s1. split; [done|]. split; [done|].
  transitivity kept; [apply search_truncate_sublist|].
  unfold search_since_filter in Hf. destruct (truthy_str (since opts)).
  - unfold bind in Hf.
    destruct (parseSinceDate_ok (default "" (since opts)) s1)
      as ([d|] & s2 & Hd & _); rewrite Hd in Hf; unfold ret in Hf;
      simplify_eq; [apply list_filter_sublist|done].
  - unfold ret in Hf. by simplify_eq.
Qed.

Lemma search_returns_accumulated_witness :
  ∃ res s' fullQuery s0 allTweets s1,
    @search Script.scripted "rocq" Script.since_opts Script.since_run = (Ok res, s')
    ∧ @search_fullQuery Script.scripted "rocq" Script.since_opts Script.since_run
      = (Ok fullQuery, s0)
    ∧ @paginate Script.scripted (search_endpoint fullQuery "Top") 1 s0
      = (Ok allTweets, s1)
    ∧ res `sublist_of` allTweets.
Proof.
  let run := eval vm_compute in
    (@search Script.scripted "rocq" Script.since_opts Script.since_run) in
  match run with
  | (Ok ?res, ?s') =>
      exists res, s'; 
      destruct (@search_returns_accumulated Script.scripted "rocq"
                  Script.since_opts Script.since_run res s')
        as (fq & s0 & allTweets & s1 & Hfq & Hpag & Hsub)
  end; [vm_compute; reflexivity|].
  exists fq, s0, allTweets, s1. split; [vm_compute; reflexivity|].
  by split_and!.
Defined.

(** X14. A negative [opts.maxResults] is passed to [slice] as it is, so
    it cuts records off the end: [search] then returns the filtered
    sequence without its last [-maxResults] records. *)
Theorem search_negative_maxResults `{Runtime} query opts n s res s' :
  maxResults opts = Some n → n < 0 →
  search query opts s = (Ok res, s') →
  ∃ fullQuery s0 allTweets s1 kept,
    search_fullQuery query opts s = (Ok fullQuery, s0)
    ∧ paginate (search_endpoint fullQuery (queryType_of (sortOrder opts)))
        (num_or (pages opts) 1) s0 = (Ok allTweets, s1)
    ∧ search_since_filter opts allTweets s1 = (Ok kept, s')
    ∧ res = take (length kept - Z.to_nat (- n)) kept.
Proof.
  intros Hmax Hn Hres.
  destruct (search_result _ _ _ _ _ Hres)
    as (fq & s0 & allTweets & s1 & kept & Hfq & _ & Hpag & Hf & ->).
  exists fq, s0, allTweets, s1, kept. split_and!; try done.
  unfold search_truncate, slice0. rewrite Hmax. simpl.
  destruct (Z.eqb_spec n 0); [lia|]. simpl.
  destruct (Z.ltb_spec n 0); [|lia]. f_equal. lia.
Qed.

Lemma search_negative_maxResults_witness :
  ∃ res s',
    @search Script.scripted "rocq"
      {| maxResults := Some (-1); pages := None; sortOrder := None; since := None |}
      Script.since_run = (Ok res, s')
    ∧ List.map id res = ["1"].
Proof.
  let run := eval vm_compute in
    (@search Script.scripted "rocq"
       {| maxResults := Some (-1); pages := None; sortOrder := None;
          since := None |} Script.since_run) in
  match run with
  | (Ok ?res, ?s') =>
      exists res, s'; split; [vm_compute; reflexivity|];
      destruct (@search_negative_maxResults Script.scripted "rocq"
                  {| maxResults := Some (-1); pages := None; sortOrder := None;
                     since := None |} (-1) Script.since_run res s')
        as (fq & s0 & allTweets & s1 & kept & _ & _ & _ & Hres)
  end; [reflexivity|lia|vm_compute; reflexivity|reflexivity].
Defined.

(** X15. A negative page budget sends nothing: [search] and [thread] with
    negative [pages] return no record without a transport call or a
    pause, and [profile] with a negative [count] never calls the timeline
    endpoint and returns no tweet. *)
Theorem negative_budget_fetches_nothing `{Runtime} (n : Z) :
  n < 0 →
  (∀ query m so si s, ∃ s',
     search query {| maxResults := m; pages := Some n; sortOrder := so;
                     since := si |} s = (Ok [], s')
     ∧ log s' = log s)
  ∧ (∀ tweetId s, thread tweetId {| thread_pages := Some n |} s = (Ok [], s))
  ∧ (∀ username ir s,
       (∃ tr, log (profile username {| count := Some n; includeReplies := ir |} s).2
              = log s ++ tr
              ∧ calls_to timeline_path tr = 0%nat)
       ∧ ∀ user tweets s',
           profile username {| count := Some n; includeReplies := ir |} s
           = (Ok (user, tweets), s') → tweets = []).
Proof.
  intros Hn.
  assert (Hnum : ∀ d, num_or (Some n) d = n).
  { intros d. unfold num_or. by destruct (Z.eqb_spec n 0); [lia|]. }
  assert (Hnone : ∀ ep b s, b < 0 → paginate ep b s = (Ok [], s)).
  { intros ep b s Hb. unfold paginate.
    by replace (Z.to_nat b) with 0%nat by lia. }
  split; [|split].
  - intros query m so si s.
    set (opts := {| maxResults := m; pages := Some n; sortOrder := so;
                    since := si |}).
    destruct (search_phases query opts s) as (fq & s0 & Hfq & Hlog0 & _ & Hrun).
    change (pages opts) with (Some n) in Hrun.
    rewrite Hnum, Hnone in Hrun by done.
    destruct Hrun as (kept & s2 & Hf & Hlog2 & Hs).
    assert (kept = []) as ->.
    { destruct (search_since_filter_ok opts [] s0)
        as (kept' & s2' & Hf' & _ & Hyes & Hno).
      rewrite Hf in Hf'. simplify_eq.
      destruct (truthy_str (since opts)) eqn:Hsince; [|by apply Hno].
      destruct (parseSinceDate_ok (default "" (since opts)) s0)
        as ([d|] & s3 & Hd & _).
      - rewrite (Hyes eq_refl d); [done|by rewrite Hd].
      - unfold search_since_filter, bind in Hf. rewrite Hsince, Hd in Hf.
        unfold ret in Hf. by simplify_eq. }
    exists s2. split; [|congruence].
    rewrite Hs. f_equal. f_equal. unfold search_truncate, slice0.
    destruct (truthy_num _); [apply take_nil|done].
  - intros tweetId s. unfold thread. simpl thread_pages. rewrite Hnum.
    by apply Hnone.
  - intros username ir s.
    set (opts := {| count := Some n; includeReplies := ir |}).
    assert (Hbudget : pagesToFetch (num_or (count opts) 20) ≤ 0).
    { change (count opts) with (Some n). rewrite Hnum. unfold pagesToFetch.
      pose proof (Z.div_pos (- n) 20). lia. }
    split.
    + destruct (profile_timeline_calls username opts s) as (tr & Hlog & Hc).
      exists tr. split; [done|]. lia.
    + intros user tweets s' Hok.
      pose proof (profile_cases username opts s) as Hcases. cbn zeta in Hcases.
      destruct (transport _ _ _) as [[userRaw|e] w]; [|congruence].
      destruct (get userRaw "data") as [data|e]; [|congruence].
      destruct (get userRaw "status") as [status|e]; [|congruence].
      destruct (_ || _); [congruence|].
      destruct (normalize_user data) as [user'|e]; [|congruence].
      unfold paginate in Hcases.
      replace (Z.to_nat (pagesToFetch (num_or (count opts) 20)))
        with 0%nat in Hcases by lia.
      simpl fetch_pages in Hcases. unfold ret in Hcases.
      rewrite Hcases in Hok. simplify_eq. apply take_nil.
Qed.

Lemma negative_budget_fetches_nothing_witness :
  @thread Script.scripted "42" {| thread_pages := Some (-3) |} Script.since_run
  = (Ok [], Script.since_run).
Proof.
  assert (Hneg : -3 < 0) by reflexivity.
  apply (proj1 (proj2 (@negative_budget_fetches_nothing Script.scripted (-3)
                         Hneg))).
Defined.

(** ** The credential *)

Section Credential.
Import Http.

Lemma take_key_chars s : forallb key_char (list_ascii_of_string (take_key s)) = true.
Proof.
  induction s as [|c s IH]; simpl; [done|].
  destruct (key_char c) eqn:Hc; simpl; [|done]. by rewrite Hc.
Qed.

Lemma append_assoc (a b c : string) : (a +:+ b) +:+ c = a +:+ b +:+ c.
Proof. induction a as [|x a IH]; [done|]. by rewrite !append_String, IH. Qed.

Lemma take_key_prefix s : ∃ rest, s = take_key s +:+ rest.
Proof.
  induction s as [|c s [rest IH]]; simpl; [by exists ""|].
  destruct (key_char c); [|by eexists].
  exists rest. by rewrite append_String, <- IH.
Qed.

Lemma strip_prefix_Some p s rest :
  strip_prefix p s = Some rest → s = p +:+ rest.
Proof.
  revert s. induction p as [|a p IH]; intros [|b s]; simpl; try done.
  - by intros [= <-].
  - by intros [= <-].
  - destruct (Ascii.eqb_spec a b) as [->|_]; [|done].
    intros ->%IH. by rewrite append_String.
Qed.

Lemma strip_prefix_app p rest : strip_prefix p (p +:+ rest) = Some rest.
Proof.
  induction p as [|a p IH]; [by destruct rest|].
  rewrite append_String. simpl. by rewrite Ascii.eqb_refl.
Qed.

Lemma skip_quote_prefix s : ∃ q, s = q +:+ skip_quote s ∧ (q = "" ∨ ∃ c, q = String c "" ∧ is_quote c = true).
Proof.
  destruct s as [|c s]; simpl; [by exists ""; split; [|left]|].
  destruct (is_quote c) eqn:Hc; [|by exists ""; split; [|left]].
  exists (String c ""). split; [done|]. right. by exists c.
Qed.

(** What a match at the head of [s] captures. *)
Lemma match_key_here_Some s key :
  match_key_here s = Some key →
  key ≠ "" ∧ forallb key_char (list_ascii_of_string key) = true
  ∧ ∃ q rest, s = key_marker +:+ q +:+ key +:+ rest
              ∧ (q = "" ∨ ∃ c, q = String c "" ∧ is_quote c = true).
Proof.
  unfold match_key_here.
  destruct (strip_prefix key_marker s) as [after|] eqn:Hs; [|done].
  apply strip_prefix_Some in Hs.
  destruct (take_key (skip_quote after)) as [|c k] eqn:Hk; [done|].
  intros [= <-]. split; [done|]. split; [rewrite <- Hk; apply take_key_chars|].
  destruct (skip_quote_prefix after) as (q & Hq & Hquote).
  destruct (take_key_prefix (skip_quote after)) as [rest Hrest].
  exists q, rest. split; [|done]. rewrite <- Hk, <- Hrest. by rewrite <- Hq.
Qed.

Lemma find_key_Some s key :
  find_key s = Some key →
  ∃ before after, s = before +:+ after ∧ match_key_here after = Some key.
Proof.
  induction s as [|c s IH]; [done|]. intros Hf.
  change (find_key (String c s))
    with (match match_key_here (String c s) with
          | Some key => Some key
          | None => find_key s
          end) in Hf.
  destruct (match_key_here (String c s)) eqn:Hm.
  - injection Hf as ->. by exists "", (String c s).
  - apply IH in Hf as (before & after & -> & Ha).
    exists (String c before), after. by rewrite append_String.
Qed.

(** A line with the marker, the key and what ends the key. *)
Lemma match_key_here_line q key rest :
  q = "" ∨ (∃ c, q = String c "" ∧ is_quote c = true) →
  key ≠ "" → forallb key_char (list_ascii_of_string key) = true →
  (rest = "" ∨ ∃ c rest', rest = String c rest' ∧ key_char c = false) →
  match_key_here (key_marker +:+ q +:+ key +:+ rest) = Some key.
Proof.
  intros Hq Hne Hchars Hrest. unfold match_key_here.
  rewrite strip_prefix_app.
  assert (Htake : take_key (key +:+ rest) = key).
  { clear Hne. induction key as [|c key IH].
    - rewrite append_nil_l.
      by destruct Hrest as [->|(c & rest' & -> & Hc)]; simpl; [|rewrite Hc].
    - simpl in Hchars. apply andb_true_iff in Hchars as [Hc Hchars].
      rewrite append_String. simpl. rewrite Hc. f_equal. by apply IH. }
  assert (Hskip : skip_quote (q +:+ key +:+ rest) = key +:+ rest).
  { destruct Hq as [->|(c & -> & Hc)].
    - rewrite append_nil_l. destruct key as [|c key]; [done|].
      rewrite append_String. simpl in *.
      apply andb_true_iff in Hchars as [Hc _]. unfold key_char in Hc.
      by destruct (is_quote c).
    - rewrite append_String, append_nil_l. simpl. by rewrite Hc. }
  rewrite Hskip, Htake. by destruct key.
Qed.

Lemma find_key_skip before s :
  index 0 "T" before = None → find_key (before +:+ s) = find_key s.
Proof.
  induction before as [|c before IH]; [done|]. intros Hidx.
  rewrite append_String.
  assert (Hc : Ascii.eqb "T" c = false ∧ index 0 "T" before = None).
  { cbn [index String.prefix] in Hidx. destruct (ascii_dec "T" c) as [<-|Hne].
    - by destruct before.
    - split; [by apply Ascii.eqb_neq|]. by destruct (index 0 "T" before). }
  destruct Hc as [Hc Hrest].
  change (find_key (String c (before +:+ s)))
    with (match match_key_here (String c (before +:+ s)) with
          | Some key => Some key
          | None => find_key (before +:+ s)
          end).
  unfold match_key_here, key_marker. cbn [strip_prefix]. rewrite Hc.
  by apply IH.
Qed.

End Credential.

(** X16. [getApiKey] prefers a non-empty environment variable to the
    file. A key that it returns is never empty; when it comes from the
    file it holds no quote and no newline and stands in the file right
    after the marker and at most one quote. The only error it throws is
    that the key was not found, and only when the environment variable is
    unset or empty. *)
Theorem getApiKey_result `{Http.Host} (w : Http.HostWorld) :
  (∀ key, Http.env_key w = Some key → key ≠ "" → Http.getApiKey w = Ok key)
  ∧ (∀ key, Http.getApiKey w = Ok key →
       key ≠ ""
       ∧ (Http.env_key w = Some key
          ∨ truthy_str (Http.env_key w) = false
            ∧ forallb Http.key_char (list_ascii_of_string key) = true
            ∧ ∃ file before q rest,
                Http.env_file w = Some file
                ∧ file = before +:+ Http.key_marker +:+ q +:+ key +:+ rest
                ∧ (q = "" ∨ ∃ c, q = String c "" ∧ Http.is_quote c = true)))
  ∧ (∀ e, Http.getApiKey w = Throw e →
       e = Http.key_not_found ∧ truthy_str (Http.env_key w) = false).
Proof.
  unfold Http.getApiKey. split; [|split].
  - intros key -> Hne. simpl. by destruct (String.eqb_spec key "").
  - intros key. destruct (truthy_str (Http.env_key w)) eqn:Henv.
    + intros [= <-]. destruct (Http.env_key w) as [k|]; [|done]. simpl in *.
      split; [|by left]. by destruct (String.eqb_spec k "").
    + destruct (Http.env_file w) as [file|]; [|done].
      destruct (Http.find_key file) as [k|] eqn:Hfind; [|done].
      intros [= ->].
      apply find_key_Some in Hfind as (before & after & -> & Hhere).
      apply match_key_here_Some in Hhere
        as (Hne & Hchars & q & rest & -> & Hq).
      split; [done|]. right. split; [done|]. split; [done|].
      by exists (before +:+ Http.key_marker +:+ q +:+ key +:+ rest), before, q, rest.
  - intros e. destruct (truthy_str (Http.env_key w)); [done|].
    destruct (Http.env_file w) as [file|]; [|by intros [= <-]].
    destruct (Http.find_key file); [done|by intros [= <-]].
Qed.

Lemma getApiKey_result_witness :
  @Http.getApiKey (Samples.host (Some "k-env") (Some "TWITTERAPI_IO_KEY=k-file")) []
  = Ok "k-env".
Proof.
  apply (proj1 (@getApiKey_result
                  (Samples.host (Some "k-env") (Some "TWITTERAPI_IO_KEY=k-file")) []));
    [reflexivity|discriminate].
Defined.

(** X17. With the environment variable unset or empty, a file in which
    the marker first stands before a key, bare or after one quote, gives
    that key back: the key is the characters up to the first quote or
    newline or the end of the file. The text before the marker is any text
    without the letter T, with which the marker begins. *)
Theorem getApiKey_reads_file `{Http.Host} (w : Http.HostWorld)
    (before q key rest : string) :
  truthy_str (Http.env_key w) = false →
  Http.env_file w = Some (before +:+ Http.key_marker +:+ q +:+ key +:+ rest) →
  index 0 "T" before = None →
  q = "" ∨ (∃ c, q = String c "" ∧ Http.is_quote c = true) →
  key ≠ "" → forallb Http.key_char (list_ascii_of_string key) = true →
  (rest = "" ∨ ∃ c rest', rest = String c rest' ∧ Http.key_char c = false) →
  Http.getApiKey w = Ok key.
Proof.
  intros Henv Hfile Hbefore Hq Hne Hchars Hrest.
  unfold Http.getApiKey. rewrite Henv, Hfile, find_key_skip by done.
  assert (Hhere : Http.match_key_here
                    (Http.key_marker +:+ q +:+ key +:+ rest) = Some key)
    by by apply match_key_here_line.
  unfold Http.key_marker in *. rewrite append_String.
  change (Http.find_key (String "T" ?s))
    with (match Http.match_key_here (String "T" s) with
          | Some k => Some k
          | None => Http.find_key s
          end).
  rewrite append_String in Hhere. by rewrite Hhere.
Qed.

Lemma getApiKey_reads_file_witness :
  @Http.getApiKey
    (Samples.host None
       (Some ("export " +:+ Http.key_marker
              +:+ String Http.double_quote "" +:+ "abc-123"
              +:+ String Http.double_quote (String Http.newline "OTHER=1"))))
    [] = Ok "abc-123".
Proof.
  apply (@getApiKey_reads_file (Samples.host None _) [] "export "
           (String Http.double_quote "") "abc-123"
           (String Http.double_quote (String Http.newline "OTHER=1")));
    first [reflexivity | discriminate
          | by right; eexists
          | by right; do 2 eexists ].
Defined.

(** ** The transport *)

Lemma length_append (a b : string) :
  String.length (a +:+ b) = (String.length a + String.length b)%nat.
Proof. induction a as [|c a IH]; [done|]. rewrite append_String. simpl. lia. Qed.

Lemma length_substring_le (n : nat) (s : string) :
  (String.length (substring 0 n s) ≤ n)%nat.
Proof.
  revert s. induction n as [|n IH]; intros [|c s]; simpl; try lia.
  specialize (IH s). lia.
Qed.

Lemma apiGet_requests_le `{Http.Host} path params
    (w : Http.HostWorld * list Http.Request) :
  (length (Http.apiGet path params w).2.2 ≤ S (length w.2))%nat.
Proof.
  unfold Http.apiGet.
  destruct (Http.getApiKey w.1) as [key|e]; [|simpl; lia].
  destruct (Http.fetch _ w.1) as [[res|e] host];
    [|simpl; rewrite length_app; simpl; lia].
  destruct (Http.status res =? 429);
    [simpl; rewrite length_app; simpl; lia|].
  destruct (negb (Http.ok res)); [destruct (Http.text res)|];
    simpl; rewrite length_app; simpl; lia.
Qed.

(** X18. [apiGet] sends at most one request. Without a credential it
    throws before sending any, and leaves the host untouched; otherwise
    the one request goes to the base URL followed by the path, with the
    key of [getApiKey] in its header. *)
Theorem apiGet_one_request `{Http.Host} path params
    (w : Http.HostWorld * list Http.Request) :
  (∀ e, Http.getApiKey w.1 = Throw e →
        Http.apiGet path params w = (Throw e, w))
  ∧ (∀ key, Http.getApiKey w.1 = Ok key →
       ∃ tail,
         (Http.apiGet path params w).2.2 =
         w.2 ++ [{| Http.url := Http.BASE +:+ path +:+ tail;
                    Http.x_api_key := key |}]
         ∧ (Http.apiGet path params w).2.1 =
           (Http.fetch {| Http.url := Http.BASE +:+ path +:+ tail;
                          Http.x_api_key := key |} w.1).2)
  ∧ (length (Http.apiGet path params w).2.2 ≤ S (length w.2))%nat.
Proof.
  unfold Http.apiGet. split; [|split].
  - by intros e ->.
  - intros key ->. unfold Http.request_url. cbn zeta.
    exists (if String.eqb (Http.encode params) ""
            then "" else "?" +:+ Http.encode params).
    destruct (Http.fetch _ w.1) as [[res|e] host]; [|done].
    destruct (Http.status res =? 429); [done|].
    destruct (negb (Http.ok res)); [|done]. by destruct (Http.text res).
  - apply apiGet_requests_le.
Qed.

Lemma apiGet_one_request_witness :
  @Http.apiGet (Samples.host None None) "/twitter/tweets"
    [("tweet_ids", JStr "1")] ([], []) = (Throw Http.key_not_found, ([], [])).
Proof.
  apply (proj1 (@apiGet_one_request (Samples.host None None) "/twitter/tweets"
                  [("tweet_ids", JStr "1")] ([], [])));
    reflexivity.
Defined.

(** X19. How [apiGet] reads the response: status 429 is the rate-limit
    error whatever the body; any other status outside 200..299 is an error
    whose message is the status and at most the first 200 characters of
    the body; and a value is returned only from a response with a status
    in 200..299, as its parsed body. *)
Theorem apiGet_status_errors `{Http.Host} path params
    (w : Http.HostWorld * list Http.Request) key res host :
  Http.getApiKey w.1 = Ok key →
  Http.fetch {| Http.url := Http.request_url path params;
                Http.x_api_key := key |} w.1 = (Ok res, host) →
  (Http.status res = 429 →
     (Http.apiGet path params w).1 = Throw Http.rate_limited)
  ∧ (∀ body, Http.status res ≠ 429 → Http.ok res = false →
       Http.text res = Ok body →
       ∃ message,
         (Http.apiGet path params w).1 = Throw (Error message)
         ∧ message = "twitterapi.io " +:+ num_to_string (Some (Http.status res))
                     +:+ ": " +:+ substring 0 200 body
         ∧ (String.length message
            ≤ String.length ("twitterapi.io "
                             +:+ num_to_string (Some (Http.status res)) +:+ ": ")
              + 200)%nat)
  ∧ (∀ v, (Http.apiGet path params w).1 = Ok v →
       200 ≤ Http.status res ≤ 299 ∧ Http.json res = Ok v).
Proof.
  intros Hkey Hfetch. unfold Http.apiGet. rewrite Hkey. cbn zeta.
  rewrite Hfetch. split; [|split].
  - by intros ->.
  - intros body Hs Hok Hbody.
    destruct (Z.eqb_spec (Http.status res) 429); [done|].
    rewrite Hok, Hbody. cbn [negb fst]. unfold Http.status_error.
    eexists. split; [done|]. split; [done|].
    rewrite !length_append.
    pose proof (length_substring_le 200 body). lia.
  - intros v. destruct (Z.eqb_spec (Http.status res) 429); [done|].
    destruct (Http.ok res) eqn:Hok; simpl.
    + intros Hv. split; [|done]. unfold Http.ok in Hok. lia.
    + by destruct (Http.text res).
Qed.

Lemma apiGet_status_errors_witness :
  (@Http.apiGet (Samples.host (Some "k") None) "/twitter/tweets" []
     ([Ok {| Http.status := 429; Http.text := Ok "slow down";
             Http.json := Ok JNull |}], [])).1
  = Throw Http.rate_limited.
Proof.
  apply (proj1 (@apiGet_status_errors (Samples.host (Some "k") None)
                  "/twitter/tweets" []
                  ([Ok {| Http.status := 429; Http.text := Ok "slow down";
                          Http.json := Ok JNull |}], [])
                  "k" {| Http.status := 429; Http.text := Ok "slow down";
                         Http.json := Ok JNull |} [] eq_refl eq_refl));
    reflexivity.
Defined.

(** ** The cost of a fetch *)

Section Cost.
Context `{Runtime}.

(** A count on worlds that a transport call raises by at most one and
    that neither waiting nor reading the clock changes. *)
Variable cost : World → nat.
Hypothesis cost_transport :
  ∀ path params w, (cost (transport path params w).2 ≤ S (cost w))%nat.
Hypothesis cost_wait : ∀ ms w, cost (wait ms w) = cost w.
Hypothesis cost_clock : ∀ w, cost (clock w).2 = cost w.

Lemma fetch_pages_cost ep pages fuel page cursor acc s :
  ∃ tr, log (fetch_pages ep pages fuel page cursor acc s).2 = log s ++ tr
        ∧ (cost (world (fetch_pages ep pages fuel page cursor acc s).2)
           ≤ cost (world s) + calls tr)%nat.
Proof.
  revert page cursor acc s.
  induction fuel as [|fuel IH]; intros page cursor acc s.
  - exists []. simpl. rewrite app_nil_r. split; [done|lia].
  - rewrite fetch_pages_unfold.
    destruct (page <? pages);
      [|exists []; simpl; rewrite app_nil_r; split; [done|lia]].
    pose proof (cost_transport (ep_path ep) (page_params ep cursor) (world s))
      as Hcall.
    set (c := ECall (ep_path ep) (page_params ep cursor)).
    destruct (transport _ _ _) as [r w]. simpl in Hcall.
    assert (Hone : ∀ (r : Exc (list Tweet)), ∃ tr,
      log (r, mkState w (log s ++ [c])).2 = log s ++ tr
      ∧ (cost (world (r, mkState w (log s ++ [c])).2)
         ≤ cost (world s) + calls tr)%nat).
    { intros r'. exists [c]. split; [done|]. unfold calls. simpl. lia. }
    destruct r as [raw|e]; [|apply Hone]. cbn zeta.
    destruct (get raw (ep_field ep)); [|apply Hone].
    destruct (parseTweets _); [|apply Hone].
    destruct (get raw "has_next_page"); [|apply Hone].
    destruct (get raw "next_cursor"); [|apply Hone].
    destruct (_ || _); [apply Hone|].
    match goal with |- context [fetch_pages ep pages fuel ?p ?c ?a ?s'] =>
      destruct (IH p c a s') as (tr & Hlog & Hcost);
      set (s1 := s') in *
    end.
    rewrite Hlog.
    assert (Hs1 : ∃ mid, log s1 = log s ++ c :: mid
                         ∧ calls mid = 0%nat ∧ cost (world s1) = cost w).
    { subst s1. destruct (page <? pages - 1); cbn [log world].
      - exists [ESleep RATE_DELAY_MS]. rewrite <- app_assoc.
        by rewrite cost_wait.
      - by exists []. }
    destruct Hs1 as (mid & Hmid & Hcalls & Hw).
    exists (c :: mid ++ tr). rewrite Hmid, <- app_assoc. split; [done|].
    change (c :: mid ++ tr) with ([c] ++ mid ++ tr).
    rewrite !calls_app, Hcalls. unfold calls at 1. simpl. lia.
Qed.

Lemma parseSinceDate_cost since s :
  cost (world (parseSinceDate since s).2) = cost (world s).
Proof.
  unfold parseSinceDate.
  destruct (match_shorthand None since) as [[num unit]|].
  - unfold bind, Date_now, ret. pose proof (cost_clock (world s)) as Hc.
    by destruct (clock (world s)).
  - destruct (_ || _); [|done]. by destruct (Date_parse since).
Qed.

Lemma parseSince_cost since s :
  cost (world (parseSince since s).2) = cost (world s).
Proof.
  unfold parseSince, bind.
  destruct (match_shorthand None since) as [[num unit]|].
  - unfold Date_now, ret. pose proof (cost_clock (world s)) as Hc.
    by destruct (clock (world s)).
  - unfold ret. destruct (_ || _); [|done]. by destruct (Date_parse since).
Qed.

Lemma search_cost query opts s :
  ∃ tr, log (search query opts s).2 = log s ++ tr
        ∧ (cost (world (search query opts s).2) ≤ cost (world s) + calls tr)%nat.
Proof.
  destruct (search_phases query opts s) as (fq & s0 & Hfq & Hlog0 & _ & Hrun).
  assert (Hcost0 : cost (world s0) = cost (world s)).
  { unfold search_fullQuery in Hfq. destruct (truthy_str (since opts)).
    - unfold bind in Hfq.
      pose proof (parseSince_cost (default "" (since opts)) s) as Hc.
      destruct (parseSince _ s) as [[[op|]|e] s1]; simpl in *.
      + destruct (negb _); unfold ret in Hfq; by simplify_eq.
      + unfold ret in Hfq. by simplify_eq.
      + by simplify_eq.
    - unfold ret in Hfq. by simplify_eq. }
  unfold paginate in Hrun.
  destruct (fetch_pages_cost
              (search_endpoint fq (queryType_of (sortOrder opts)))
              (num_or (pages opts) 1) (Z.to_nat (num_or (pages opts) 1)) 0
              (JStr "") [] s0) as (tr & Hlog & Hcost).
  exists tr.
  destruct (fetch_pages _ _ _ _ _ _ s0) as [[allTweets|e] s1].
  - destruct Hrun as (kept & s2 & Hf & Hlog2 & ->). simpl in *.
    split; [congruence|].
    assert (cost (world s2) = cost (world s1)); [|lia].
    unfold search_since_filter in Hf. destruct (truthy_str (since opts)).
    + unfold bind in Hf.
      pose proof (parseSinceDate_cost (default "" (since opts)) s1) as Hc.
      destruct (parseSinceDate _ s1) as [[[d|]|e] s3]; simpl in *;
        unfold ret in Hf; by simplify_eq.
    + unfold ret in Hf. by simplify_eq.
  - rewrite Hrun. simpl in *. split; [congruence|lia].
Qed.

End Cost.

(** X20. Over the HTTP transport a [search] sends at most as many requests
    as its page budget, and a [thread] likewise: the cost of a fetch is
    bounded by the pages asked for. *)
Theorem fetch_http_requests_bounded `{Http.Host}
    (host_wait : Z → Http.HostWorld → Http.HostWorld)
    (host_clock : Http.HostWorld → Z * Http.HostWorld)
    (date_parse : string → Date) (normalize : JSval → Exc Tweet)
    (s : State (Http.HostWorld * list Http.Request)) :
  (∀ query opts,
     (length (world (@search
                (Http.runtime host_wait host_clock date_parse normalize)
                query opts s).2).2
      ≤ length (world s).2 + Z.to_nat (num_or (pages opts) 1))%nat)
  ∧ (∀ tweetId opts,
       (length (world (@thread
                  (Http.runtime host_wait host_clock date_parse normalize)
                  tweetId opts s).2).2
        ≤ length (world s).2 + Z.to_nat (num_or (thread_pages opts) 2))%nat).
Proof.
  set (R := Http.runtime host_wait host_clock date_parse normalize).
  assert (Ht : ∀ path params (w : @World R),
             (length (@transport R path params w).2.2 ≤ S (length w.2))%nat)
    by (intros; apply apiGet_requests_le).
  assert (Hw : ∀ ms (w : @World R), length (@wait R ms w).2 = length w.2)
    by done.
  assert (Hc : ∀ w : @World R, length (@clock R w).2.2 = length w.2).
  { intros w. simpl. by destruct (host_clock w.1). }
  split.
  - intros query opts.
    destruct (@search_cost R (λ w, length w.2) Ht Hw Hc query opts s)
      as (tr & Hlog & Hcost).
    destruct (@search_log R query opts s) as (fq & tr' & Hlog' & _ & Hcalls & _).
    rewrite Hlog in Hlog'. apply app_inv_head in Hlog'. subst tr'.
    cbn beta in Hcost. etrans; [exact Hcost|].
    by apply Nat.add_le_mono_l.
  - intros tweetId opts. unfold thread, paginate.
    destruct (@fetch_pages_cost R (λ w, length w.2) Ht Hw
                (thread_endpoint tweetId) (num_or (thread_pages opts) 2)
                (Z.to_nat (num_or (thread_pages opts) 2)) 0 (JStr "") [] s)
      as (tr & Hlog & Hcost).
    destruct (@thread_log R tweetId opts s) as (tr' & Hlog' & _ & Hcalls & _).
    unfold thread, paginate in Hlog'.
    rewrite Hlog in Hlog'. apply app_inv_head in Hlog'. subst tr'.
    cbn beta in Hcost. etrans; [exact Hcost|].
    by apply Nat.add_le_mono_l.
Qed.

(** X21. Over the HTTP transport a loop that finds no credential fails on
    its first page with the error of [getApiKey]: no request is sent, and
    nothing of the world changes. *)
Theorem fetch_without_credential `{Http.Host}
    (host_wait : Z → Http.HostWorld → Http.HostWorld)
    (host_clock : Http.HostWorld → Z * Http.HostWorld)
    (date_parse : string → Date) (normalize : JSval → Exc Tweet)
    (ep : Endpoint) (pages : Z)
    (s : State (Http.HostWorld * list Http.Request)) (e : JSError) :
  0 < pages → Http.getApiKey (world s).1 = Throw e →
  @paginate (Http.runtime host_wait host_clock date_parse normalize) ep pages s
  = (Throw e, mkState (world s) (log s ++ [ECall (ep_path ep) (ep_params ep)])).
Proof.
  intros Hpages Hkey. unfold paginate.
  replace (Z.to_nat pages) with (S (Z.to_nat (pages - 1))) by lia.
  rewrite fetch_pages_unfold.
  destruct (Z.ltb_spec 0 pages); [|lia].
  unfold page_params. simpl truthy. cbn iota. rewrite app_nil_r.
  simpl transport. unfold Http.apiGet. rewrite Hkey.
  by destruct (world s).
Qed.

Lemma fetch_without_credential_witness :
  @paginate (@Http.runtime (Samples.host None None) (λ _ w, w) (λ w, (0, w))
               Script.iso_parse Script.flat_parseTweet)
    (thread_endpoint "42") 2 (mkState ([], []) [])
  = (Throw Http.key_not_found,
     mkState ([], []) [ECall "/twitter/tweet/thread_context" [("tweetId", JStr "42")]]).
Proof.
  apply (@fetch_without_credential (Samples.host None None) (λ _ w, w)
           (λ w, (0, w)) Script.iso_parse Script.flat_parseTweet
           (thread_endpoint "42") 2 (mkState ([], []) []) Http.key_not_found);
    reflexivity.
Defined.

(** ** Normalized records *)

Section Normalize.
Import Schema.
Context `{Runtime}.
Variable toISOString : Z → string.

Lemma str_or_nonempty o d : d ≠ "" → str_or o d ≠ "".
Proof.
  intros Hd. unfold str_or. destruct o as [s|]; simpl; [|done].
  by destruct (String.eqb_spec s "").
Qed.

Lemma filter_Boolean_nonempty l : Forall (λ s, s ≠ "") (filter_Boolean l).
Proof.
  unfold filter_Boolean. apply Forall_fmap, Forall_forall.
  intros o [_ Ho]%list_elem_of_In%filter_In. destruct o as [s|]; [|done].
  simpl in *. by destruct (String.eqb_spec s "").
Qed.

Lemma num_or_0 (o : option Z) : num_or o 0 = default 0 o.
Proof. destruct o as [n|]; simpl; [|done]. by destruct (Z.eqb_spec n 0). Qed.

Lemma append_nonempty_l a b : a ≠ "" → a +:+ b ≠ "".
Proof. destruct a; [done|]. by rewrite append_String. Qed.

End Normalize.

(** X22. Every normalized record has a non-empty handle, display name and
    permalink, and no empty entry among its links, mentions and tags;
    each of its six counters is the payload's, and 0 when the payload
    lacks it. *)
Theorem parseTweet_never_empty `{Runtime} (toISOString : Z → string)
    (t : Schema.RawTweet) :
  let r := Schema.parseTweet toISOString t in
  username r ≠ "" ∧ name r ≠ "" ∧ tweet_url r ≠ ""
  ∧ Forall (λ s, s ≠ "") (urls r)
  ∧ Forall (λ s, s ≠ "") (mentions r)
  ∧ Forall (λ s, s ≠ "") (hashtags r)
  ∧ (Schema.raw_likeCount t = None → likes (metrics r) = 0)
  ∧ (Schema.raw_viewCount t = None → impressions (metrics r) = 0)
  ∧ (Schema.raw_retweetCount t = None → retweets (metrics r) = 0)
  ∧ (Schema.raw_replyCount t = None → replies (metrics r) = 0)
  ∧ (Schema.raw_quoteCount t = None → quotes (metrics r) = 0)
  ∧ (Schema.raw_bookmarkCount t = None → bookmarks (metrics r) = 0)
  ∧ metrics r =
    {| likes := default 0 (Schema.raw_likeCount t);
       retweets := default 0 (Schema.raw_retweetCount t);
       replies := default 0 (Schema.raw_replyCount t);
       quotes := default 0 (Schema.raw_quoteCount t);
       impressions := default 0 (Schema.raw_viewCount t);
       bookmarks := default 0 (Schema.raw_bookmarkCount t) |}.
Proof.
  cbn zeta. split_and!.
  - by apply str_or_nonempty.
  - by apply str_or_nonempty.
  - apply str_or_nonempty. by apply append_nonempty_l.
  - apply filter_Boolean_nonempty.
  - apply filter_Boolean_nonempty.
  - apply filter_Boolean_nonempty.
  - by intros Hl; simpl; rewrite Hl.
  - by intros Hv; simpl; rewrite Hv.
  - by intros Hc; simpl; rewrite Hc.
  - by intros Hc; simpl; rewrite Hc.
  - by intros Hc; simpl; rewrite Hc.
  - by intros Hc; simpl; rewrite Hc.
  - simpl. by rewrite !num_or_0.
Qed.

Lemma parseTweet_never_empty_witness :
  let r := @Schema.parseTweet Script.scripted Samples.toISOString
             Samples.undated in
  username r ≠ "" ∧ name r ≠ "" ∧ tweet_url r ≠ ""
  ∧ retweets (metrics r) = 0 ∧ bookmarks (metrics r) = 0
  ∧ metrics r = {| likes := 7; retweets := 0; replies := 0; quotes := 0;
                   impressions := 0; bookmarks := 0 |}.
Proof.
  intros r.
  pose proof (@parseTweet_never_empty Script.scripted Samples.toISOString
                Samples.undated)
    as (Hu & Hn & Hl & _ & _ & _ & _ & _ & Hrt & _ & _ & Hb & Hm).
  split; [exact Hu|]. split; [exact Hn|]. split; [exact Hl|].
  split; [exact (Hrt eq_refl)|]. split; [exact (Hb eq_refl)|]. exact Hm.
Defined.

(** X23. A record without a [url] gets the permalink of its handle and
    identifier. The permalink is built from the raw identifier, so a
    record without an identifier has the empty [id] and a permalink that
    ends in [undefined]. *)
Theorem parseTweet_permalink_fallback `{Runtime} (toISOString : Z → string)
    (t : Schema.RawTweet) :
  truthy_str (Schema.raw_url t) = false →
  let r := Schema.parseTweet toISOString t in
  tweet_url r =
    "https://x.com/" +:+ username r +:+ "/status/"
    +:+ Schema.template (Schema.raw_id t)
  ∧ (∀ i, Schema.raw_id t = Some i → i ≠ "" →
       id r = i ∧ tweet_url r = "https://x.com/" +:+ username r +:+ "/status/" +:+ id r)
  ∧ (Schema.raw_id t = None →
       id r = ""
       ∧ tweet_url r = "https://x.com/" +:+ username r +:+ "/status/undefined").
Proof.
  intros Hurl r.
  assert (Hlink : tweet_url r =
                  "https://x.com/" +:+ username r +:+ "/status/"
                  +:+ Schema.template (Schema.raw_id t)).
  { subst r. simpl. unfold Schema.str_or at 1. by rewrite Hurl. }
  split; [done|]. split.
  - intros i Hid Hi.
    assert (id r = i) as Hr.
    { subst r. simpl. rewrite Hid. unfold Schema.str_or. simpl.
      by destruct (String.eqb_spec i ""). }
    split; [done|]. by rewrite Hlink, Hid, Hr.
  - intros Hid. split; [subst r; simpl; by rewrite Hid|].
    by rewrite Hlink, Hid.
Qed.

Lemma parseTweet_permalink_fallback_witness :
  tweet_url
    (@Schema.parseTweet Script.scripted Samples.toISOString
       {| Schema.raw_id := None; Schema.raw_text := Some "hello";
          Schema.raw_author :=
            Some {| Schema.raw_author_id := Some "7";
                    Schema.raw_userName := Some "bob";
                    Schema.raw_author_name := None |};
          Schema.raw_createdAt := None; Schema.raw_conversationId := None;
          Schema.raw_likeCount := None; Schema.raw_retweetCount := None;
          Schema.raw_replyCount := None; Schema.raw_quoteCount := None;
          Schema.raw_viewCount := None; Schema.raw_bookmarkCount := None;
          Schema.raw_entities := None; Schema.raw_url := None |})
  = "https://x.com/bob/status/undefined".
Proof.
  apply (@parseTweet_permalink_fallback Script.scripted Samples.toISOString);
    reflexivity.
Defined.

(** X24. A record whose timestamp the runtime cannot read keeps the raw
    timestamp as its [created_at] (the empty string when the payload has
    none), and the recency filter of [search] never keeps it: the
    comparison with the cutoff fails whatever the cutoff is, so the record
    is in no filtered sequence and in no result of a [search] with a
    shorthand [since]. *)
Theorem unreadable_timestamp_never_recent `{Runtime} (toISOString : Z → string)
    (t : Schema.RawTweet) :
  Date_parse (Schema.str_or (Schema.raw_createdAt t) "") = None →
  let r := Schema.parseTweet toISOString t in
  created_at r = Schema.str_or (Schema.raw_createdAt t) ""
  ∧ (∀ cutoff, at_or_after cutoff r = false)
  ∧ (∀ cutoff allTweets, r ∉ List.filter (at_or_after cutoff) allTweets)
  ∧ (∀ query opts sinceStr num unit s res s',
       since opts = Some sinceStr →
       match_shorthand None sinceStr = Some (num, unit) →
       search query opts s = (Ok res, s') → r ∉ res).
Proof.
  intros Hdate r.
  assert (Hcreated : created_at r = Schema.str_or (Schema.raw_createdAt t) "").
  { subst r. simpl. unfold Schema.parseTwitterDate. by rewrite Hdate. }
  assert (Hnever : ∀ cutoff, at_or_after cutoff r = false).
  { intros cutoff. unfold at_or_after. by rewrite Hcreated, Hdate. }
  assert (Hfilter : ∀ cutoff allTweets,
            r ∉ List.filter (at_or_after cutoff) allTweets).
  { intros cutoff allTweets [_ Hr]%list_elem_of_In%filter_In.
    by rewrite Hnever in Hr. }
  split; [done|]. split; [done|]. split; [done|].
  intros query opts sinceStr num unit s res s' Hsince Hm Hres Hin.
  assert (Hne : sinceStr ≠ "") by (by intros ->).
  destruct (search_filtered _ _ _ _ _ _ Hsince Hne Hres)
    as (fq & s0 & allTweets & s1 & _ & _ & _ & Hcut).
  destruct (Hcut _ (parseSinceDate_shorthand _ _ _ s1 Hm)) as [_ Hall].
  rewrite Forall_forall in Hall. specialize (Hall r Hin).
  by rewrite Hnever in Hall.
Qed.

Lemma unreadable_timestamp_never_recent_witness :
  let r := @Schema.parseTweet Script.scripted Samples.toISOString
             Samples.undated in
  created_at r = "yesterday"
  ∧ (∀ cutoff, @at_or_after Script.scripted cutoff r = false)
  ∧ (∀ res s',
       @search Script.scripted "rocq" Script.since_opts Script.since_run
       = (Ok res, s') → r ∉ res).
Proof.
  intros r.
  pose proof (@unreadable_timestamp_never_recent Script.scripted
                Samples.toISOString Samples.undated eq_refl)
    as (Hc & Hn & _ & Hs).
  split; [exact Hc|]. split; [exact Hn|].
  intros res s'.
  apply (Hs "rocq" Script.since_opts "1d" 1 "d"%char Script.since_run res s');
    reflexivity.
Defined.

(** ** Parsing a page *)

Lemma mapM_exc_Ok {A B} (f : A → Exc B) (l : list A) (l' : list B) :
  mapM_exc f l = Ok l' ↔ Forall2 (λ x y, f x = Ok y) l l'.
Proof.
  revert l'. induction l as [|x l IH]; intros l'; simpl.
  - split; [by intros [= <-]; constructor|by inversion 1].
  - destruct (f x) as [y|e] eqn:Hx.
    + destruct (mapM_exc f l) as [ys|e] eqn:Hl.
      * split.
        -- intros [= <-]. constructor; [done|]. by apply IH.
        -- inversion 1 as [|? y' ? ys' Hy Hys]; subst.
           apply IH in Hys. rewrite Hx in Hy. by simplify_eq.
      * split; [done|]. inversion 1 as [|? y' ? ys' Hy Hys]; subst.
        by apply IH in Hys.
    + split; [done|]. inversion 1 as [|? y' ? ys' Hy Hys]; subst.
      rewrite Hx in Hy. done.
Qed.

(** X25. [parseTweets] on an array gives one record for each element, in
    the order of the array, each the normalization of its element; it
    throws exactly when the normalization of some element throws, and the
    empty array gives no record. *)
Theorem parseTweets_elementwise `{Runtime} (items : list JSval) :
  (∀ tweets, parseTweets (JArr items) = Ok tweets ↔
             Forall2 (λ raw t, parseTweet raw = Ok t) items tweets)
  ∧ (∀ tweets, parseTweets (JArr items) = Ok tweets →
               length tweets = length items)
  ∧ ((∃ e, parseTweets (JArr items) = Throw e) ↔
     Exists (λ raw, ∃ e, parseTweet raw = Throw e) items)
  ∧ parseTweets (JArr []) = Ok [].
Proof.
  assert (Hok : ∀ tweets, parseTweets (JArr items) = Ok tweets ↔
                          Forall2 (λ raw t, parseTweet raw = Ok t) items tweets)
    by (intros; apply mapM_exc_Ok).
  split_and!; [done| | |done].
  - intros tweets Hf%Hok. symmetry. by eapply Forall2_length.
  - change (parseTweets (JArr items)) with (mapM_exc parseTweet items).
    induction items as [|x l IH]; simpl.
    + split; [by intros [? ?]|by inversion 1].
    + destruct (parseTweet x) as [y|e] eqn:Hx.
      * destruct (mapM_exc parseTweet l) as [ys|e] eqn:Hl.
        -- split; [by intros [? ?]|].
           inversion 1 as [? ? [e He]|? ? Hex]; subst; [congruence|].
           assert (Hl' : ∀ tweets, mapM_exc parseTweet l = Ok tweets ↔
                     Forall2 (λ raw t, parseTweet raw = Ok t) l tweets)
             by (intros; apply mapM_exc_Ok).
           apply (IH Hl') in Hex as [e He]. congruence.
        -- split; [|by eauto]. intros _. apply Exists_cons_tl.
           apply IH; [intros; apply mapM_exc_Ok|by eauto].
      * split; [|by eauto]. intros _. apply Exists_cons_hd. by eauto.
Qed.
